(** * Transfer-Chain transaction processor: [processor/handlers.js]

    A shallow embedding of the Sawtooth transaction family that
    [handlers.js] implements, and the properties of its five rules.

    Conventions of the embedding.

    - A JavaScript string is represented by a [string] holding the bytes
      of its UTF-8 text, so [Buffer.from(str)] and [buf.toString()] are the
      two directions of the same representation change, and every
      character the program inspects (quotes, backslashes, control
      characters, JSON punctuation) is a single byte below 128.  Two
      strings are equal when their bytes are; [sort] orders them by
      their UTF-16 code units, computed from the bytes.
    - [buf.toString()] returns the bytes of the buffer, which is what
      Node does on well-formed UTF-8.  Node replaces ill-formed bytes by
      U+FFFD; that is not modelled, and a property that depends on the
      text of a ledger entry being different from a given string assumes
      the entry well-formed ([isUtf8]).  What [encode] writes is
      well-formed whenever the strings of the record are
      ([isUtf8_encode]).
    - An object with string properties is an association list in property
      order, without a property name twice.
    - [JSON.parse] is the whole JSON grammar; a number is kept as its
      literal, since the handlers only compare a parsed value with a
      string.
    - The validator state is a finite map from addresses to buffers.
      [state.get] and [state.set] are operations of a small state-and-error
      monad that stands for the promise chain of a handler; [state.set]
      always resolves (failures of the validator are outside the handlers).
    - [createHash('sha512')] is SHA-512 as in FIPS 180-4, on 64-bit words
      kept in [Z] with the wrap-around written out.
    - The header and the payload of a transaction are taken as parsed,
      and the signer, the action, the asset and the owner are strings.
      On such a transaction the [console.log] of [apply] only prints, and
      is left out.  Other payloads are outside the model: one whose
      asset is not a string makes the rule throw a TypeError in its
      address function, before it reads anything; one whose owner is a
      number other than 0, [true] or an object makes the log line throw;
      a transfer whose owner is missing, [null], [false], 0 or an array
      writes an acknowledgment entry whose owner is not a string. *)

From Stdlib Require Import ZArith Ascii String List Lia.
From stdpp Require Import base gmap strings list sorting.

Local Open Scope Z_scope.

(** ** SHA-512 ([crypto.createHash('sha512')]) *)

Module SHA512.

Definition mask64 : Z := 2 ^ 64 - 1.
Definition wrap (x : Z) : Z := x mod 2 ^ 64.
Definition add64 (x y : Z) : Z := wrap (x + y).
Definition shr (n x : Z) : Z := Z.shiftr x n.
Definition rotr (n x : Z) : Z :=
  Z.lor (Z.shiftr x n) (wrap (Z.shiftl x (64 - n))).
Definition not64 (x : Z) : Z := Z.lxor x mask64.

Definition Ch (x y z : Z) : Z := Z.lxor (Z.land x y) (Z.land (not64 x) z).
Definition Maj (x y z : Z) : Z :=
  Z.lxor (Z.lxor (Z.land x y) (Z.land x z)) (Z.land y z).
Definition Sigma0 (x : Z) : Z := Z.lxor (Z.lxor (rotr 28 x) (rotr 34 x)) (rotr 39 x).
Definition Sigma1 (x : Z) : Z := Z.lxor (Z.lxor (rotr 14 x) (rotr 18 x)) (rotr 41 x).
Definition sigma0 (x : Z) : Z := Z.lxor (Z.lxor (rotr 1 x) (rotr 8 x)) (shr 7 x).
Definition sigma1 (x : Z) : Z := Z.lxor (Z.lxor (rotr 19 x) (rotr 61 x)) (shr 6 x).

Definition K : list Z :=
  [ 0x428a2f98d728ae22; 0x7137449123ef65cd; 0xb5c0fbcfec4d3b2f; 0xe9b5dba58189dbbc;
    0x3956c25bf348b538; 0x59f111f1b605d019; 0x923f82a4af194f9b; 0xab1c5ed5da6d8118;
    0xd807aa98a3030242; 0x12835b0145706fbe; 0x243185be4ee4b28c; 0x550c7dc3d5ffb4e2;
    0x72be5d74f27b896f; 0x80deb1fe3b1696b1; 0x9bdc06a725c71235; 0xc19bf174cf692694;
    0xe49b69c19ef14ad2; 0xefbe4786384f25e3; 0x0fc19dc68b8cd5b5; 0x240ca1cc77ac9c65;
    0x2de92c6f592b0275; 0x4a7484aa6ea6e483; 0x5cb0a9dcbd41fbd4; 0x76f988da831153b5;
    0x983e5152ee66dfab; 0xa831c66d2db43210; 0xb00327c898fb213f; 0xbf597fc7beef0ee4;
    0xc6e00bf33da88fc2; 0xd5a79147930aa725; 0x06ca6351e003826f; 0x142929670a0e6e70;
    0x27b70a8546d22ffc; 0x2e1b21385c26c926; 0x4d2c6dfc5ac42aed; 0x53380d139d95b3df;
    0x650a73548baf63de; 0x766a0abb3c77b2a8; 0x81c2c92e47edaee6; 0x92722c851482353b;
    0xa2bfe8a14cf10364; 0xa81a664bbc423001; 0xc24b8b70d0f89791; 0xc76c51a30654be30;
    0xd192e819d6ef5218; 0xd69906245565a910; 0xf40e35855771202a; 0x106aa07032bbd1b8;
    0x19a4c116b8d2d0c8; 0x1e376c085141ab53; 0x2748774cdf8eeb99; 0x34b0bcb5e19b48a8;
    0x391c0cb3c5c95a63; 0x4ed8aa4ae3418acb; 0x5b9cca4f7763e373; 0x682e6ff3d6b2b8a3;
    0x748f82ee5defb2fc; 0x78a5636f43172f60; 0x84c87814a1f0ab72; 0x8cc702081a6439ec;
    0x90befffa23631e28; 0xa4506cebde82bde9; 0xbef9a3f7b2c67915; 0xc67178f2e372532b;
    0xca273eceea26619c; 0xd186b8c721c0c207; 0xeada7dd6cde0eb1e; 0xf57d4f7fee6ed178;
    0x06f067aa72176fba; 0x0a637dc5a2c898a6; 0x113f9804bef90dae; 0x1b710b35131c471b;
    0x28db77f523047d84; 0x32caab7b40c72493; 0x3c9ebe0a15c9bebc; 0x431d67c49c100d4c;
    0x4cc5d4becb3e42b6; 0x597f299cfc657e2a; 0x5fcb6fab3ad6faec; 0x6c44198c4a475817 ].

Definition H0 : list Z :=
  [ 0x6a09e667f3bcc908; 0xbb67ae8584caa73b; 0x3c6ef372fe94f82b; 0xa54ff53a5f1d36f1;
    0x510e527fade682d1; 0x9b05688c2b3e6c1f; 0x1f83d9abfb41bd6b; 0x5be0cd19137e2179 ].

(** Big-endian bytes of a number, and back. *)
Fixpoint be_bytes (n : nat) (x : Z) : list Z :=
  match n with
  | O => []
  | S n' => be_bytes n' (Z.shiftr x 8) ++ [Z.land x 255]
  end.

Definition be_word (bs : list Z) : Z :=
  fold_left (fun acc b => Z.lor (Z.shiftl acc 8) b) bs 0.

(** Padding: a one bit, zeros up to 112 modulo 128 bytes, then the
    length in bits on 16 bytes. *)
Definition pad (msg : list Z) : list Z :=
  let len := Z.of_nat (length msg) in
  let zeros := Z.to_nat ((112 - (len + 1)) mod 128) in
  msg ++ [128] ++ repeat 0 zeros ++ be_bytes 16 (8 * len).

Fixpoint words (n : nat) (bs : list Z) : list Z :=
  match n with
  | O => []
  | S n' => be_word (firstn 8 bs) :: words n' (skipn 8 bs)
  end.

(** The message schedule, most recent word first. *)
Definition schedule_step (rev_w : list Z) : list Z :=
  add64 (add64 (add64 (sigma1 (nth 1 rev_w 0)) (nth 6 rev_w 0))
               (sigma0 (nth 14 rev_w 0)))
        (nth 15 rev_w 0) :: rev_w.

Definition schedule (block : list Z) : list Z :=
  rev (Nat.iter 64 schedule_step (rev block)).

Definition round (h : list Z) (kw : Z * Z) : list Z :=
  match h with
  | [a; b; c; d; e; f; g; hh] =>
      let t1 := add64 (add64 (add64 (add64 hh (Sigma1 e)) (Ch e f g)) (fst kw)) (snd kw) in
      let t2 := add64 (Sigma0 a) (Maj a b c) in
      [add64 t1 t2; a; b; c; add64 d t1; e; f; g]
  | _ => h
  end.

Definition compress (h : list Z) (block : list Z) : list Z :=
  let h' := fold_left round (combine K (schedule block)) h in
  map (fun p => add64 (fst p) (snd p)) (combine h h').

Fixpoint blocks (n : nat) (h : list Z) (bs : list Z) : list Z :=
  match n with
  | O => h
  | S n' => blocks n' (compress h (words 16 (firstn 128 bs))) (skipn 128 bs)
  end.

Definition digest (msg : list Z) : list Z :=
  let p := pad msg in
  flat_map (be_bytes 8) (blocks (length p / 128) H0 p).

End SHA512.

(** ** Strings, bytes and hexadecimal *)

Definition byte_of_ascii (c : ascii) : Z := Z.of_N (N_of_ascii c).
Definition ascii_of_byte (b : Z) : ascii := ascii_of_N (Z.to_N b).

Definition bytes_of_string (s : string) : list Z :=
  map byte_of_ascii (list_ascii_of_string s).

Definition hex_digit (d : Z) : ascii :=
  ascii_of_byte (if d <? 10 then 48 + d else 87 + d).

Fixpoint hex_of_bytes (bs : list Z) : string :=
  match bs with
  | [] => EmptyString
  | b :: bs' => String (hex_digit (Z.shiftr b 4)) (String (hex_digit (Z.land b 15)) (hex_of_bytes bs'))
  end.

(** [createHash('sha512').update(key).digest('hex')] *)
Definition sha512_hex (key : string) : string :=
  hex_of_bytes (SHA512.digest (bytes_of_string key)).

(** [Buffer.from(str)] and [buf.toString()]: a buffer is the list of the
    bytes of the text. *)
Definition Buffer : Type := list Byte.byte.

Definition Buffer_from (s : string) : Buffer := list_byte_of_string s.

(** The text of a buffer of well-formed UTF-8 (see [isUtf8] below); on
    another buffer Node gives U+FFFD for each ill-formed part, and this
    definition the bytes as they are. *)
Definition Buffer_toString (b : Buffer) : string := string_of_list_byte b.

(** ** JSON values, [JSON.stringify] and [JSON.parse] *)

Local Close Scope Z_scope.

(** The double quote and the characters JSON treats specially. *)
Definition dquote : ascii := "034"%char.
Definition backslash : ascii := "\"%char.

Definition code (c : ascii) : N := N_of_ascii c.

#[local] Set Warnings "-register-all".

(** Values that [JSON.parse] returns.  A number keeps its literal: the
    handlers only compare a parsed value with a string. *)
Inductive json : Type :=
| JNull
| JBool (b : bool)
| JNumber (literal : string)
| JString (s : string)
| JArray (items : list json)
| JObject (fields : list (string * json)).

(** An object whose own properties all hold strings, in property order:
    what the handlers pass to [encode]. *)
Definition record : Type := list (string * string).

Definition Object_keys (obj : record) : list string := map fst obj.

(** [obj[key]] *)
Fixpoint Get (obj : record) (key : string) : option string :=
  match obj with
  | [] => None
  | (k, v) :: obj' => if String.eqb k key then Some v else Get obj' key
  end.

Definition in_range (lo hi : N) (c : ascii) : bool :=
  (lo <=? code c)%N && (code c <=? hi)%N.

(** A continuation byte of UTF-8. *)
Definition is_cont (c : ascii) : bool := in_range 128 191 c.

(** The UTF-16 code units of the string whose UTF-8 text is [s]: one
    unit for a character of one, two or three bytes, a surrogate pair
    for a character of four.  (A byte that begins no character counts
    as U+FFFD; no JavaScript string has such a text.) *)
Fixpoint code_units (s : string) : list N :=
  match s with
  | EmptyString => []
  | String b0 s1 =>
      if (code b0 <? 128)%N then code b0 :: code_units s1
      else
        match s1 with
        | String b1 s2 =>
            if in_range 192 223 b0 && is_cont b1
            then ((code b0 - 192) * 64 + (code b1 - 128))%N :: code_units s2
            else
              match s2 with
              | String b2 s3 =>
                  if in_range 224 239 b0 && is_cont b1 && is_cont b2
                  then ((code b0 - 224) * 4096 + (code b1 - 128) * 64 + (code b2 - 128))%N
                         :: code_units s3
                  else
                    match s3 with
                    | String b3 s4 =>
                        if in_range 240 244 b0 && is_cont b1 && is_cont b2 && is_cont b3
                        then
                          let cp := ((code b0 - 240) * 262144 + (code b1 - 128) * 4096
                                     + (code b2 - 128) * 64 + (code b3 - 128))%N in
                          (55296 + (cp - 65536) / 1024)%N
                            :: (56320 + (cp - 65536) mod 1024)%N :: code_units s4
                        else 65533%N :: code_units s1
                    | EmptyString => 65533%N :: code_units s1
                    end
              | EmptyString => 65533%N :: code_units s1
              end
        | EmptyString => [65533%N]
        end
  end.

(** Code unit sequences compared unit by unit, a sequence before its
    extensions. *)
Fixpoint units_compare (us vs : list N) : comparison :=
  match us, vs with
  | [], [] => Eq
  | [], _ :: _ => Lt
  | _ :: _, [] => Gt
  | u :: us', v :: vs' =>
      match (u ?= v)%N with
      | Eq => units_compare us' vs'
      | c => c
      end
  end.

(** The default order of [Array.prototype.sort]: strings compared by
    UTF-16 code units.  Two texts with the same code units are the same
    text when they are well-formed; the bytes order the others. *)
Definition js_le (s t : string) : Prop :=
  match units_compare (code_units s) (code_units t) with
  | Lt => True
  | Eq => String.le s t
  | Gt => False
  end.

Global Instance js_le_dec : RelDecision js_le.
Proof. intros s t. unfold js_le. destruct (units_compare _ _); apply _. Defined.

(** A text that byte order sorts as [js_le] sorts the strings: the code
    units, each on two bytes after a byte 1, then a byte 0 and the
    string itself. *)
Fixpoint units_key (units : list N) (tail : string) : string :=
  match units with
  | [] => String "000"%char tail
  | u :: units' =>
      String "001"%char
        (String (ascii_of_N (u / 256)) (String (ascii_of_N (u mod 256)) (units_key units' tail)))
  end.

Definition sort_key (s : string) : string := units_key (code_units s) s.

(** [Array.prototype.sort] with its default order.  Equal strings are
    the same string, so the sorted array does not depend on the sorting
    algorithm. *)
Definition sort (keys : list string) : list string := merge_sort js_le keys.

(** Well-formed UTF-8 (Unicode, table 3-7): the texts that
    [buf.toString()] returns as they are. *)
Fixpoint utf8_valid (s : string) : bool :=
  match s with
  | EmptyString => true
  | String b0 s1 =>
      if (code b0 <? 128)%N then utf8_valid s1
      else
        match s1 with
        | String b1 s2 =>
            if in_range 194 223 b0 then is_cont b1 && utf8_valid s2
            else
              match s2 with
              | String b2 s3 =>
                  if in_range 224 239 b0 then
                    (if Ascii.eqb b0 "224"%char then in_range 160 191 b1
                     else if Ascii.eqb b0 "237"%char then in_range 128 159 b1
                     else is_cont b1)
                    && is_cont b2 && utf8_valid s3
                  else
                    match s3 with
                    | String b3 s4 =>
                        in_range 240 244 b0
                        && (if Ascii.eqb b0 "240"%char then in_range 144 191 b1
                            else if Ascii.eqb b0 "244"%char then in_range 128 143 b1
                            else is_cont b1)
                        && is_cont b2 && is_cont b3 && utf8_valid s4
                    | EmptyString => false
                    end
              | EmptyString => false
              end
        | EmptyString => false
        end
  end.

(** [buffer.isUtf8(buf)] *)
Definition isUtf8 (buf : Buffer) : bool := utf8_valid (Buffer_toString buf).

Definition hex_char (d : N) : ascii :=
  ascii_of_N (if (d <? 10)%N then 48 + d else 87 + d).

(** QuoteJSONString: two-character escapes, [\u00XX] for the other control
    characters, everything else as it is. *)
Definition quote_char (c : ascii) : string :=
  if Ascii.eqb c dquote then String backslash (String dquote EmptyString)
  else if Ascii.eqb c backslash then "\\"
  else if Ascii.eqb c "008"%char then "\b"
  else if Ascii.eqb c "009"%char then "\t"
  else if Ascii.eqb c "010"%char then "\n"
  else if Ascii.eqb c "012"%char then "\f"
  else if Ascii.eqb c "013"%char then "\r"
  else if (code c <? 32)%N
       then "\u00" +:+ String (hex_char (code c / 16))
                              (String (hex_char (code c mod 16)) EmptyString)
       else String c EmptyString.

Fixpoint quote_chars (s : string) : string :=
  match s with
  | EmptyString => EmptyString
  | String c s' => quote_char c +:+ quote_chars s'
  end.

Definition QuoteJSONString (s : string) : string :=
  String dquote (quote_chars s +:+ String dquote EmptyString).

Definition member (key value : string) : string :=
  QuoteJSONString key +:+ ":" +:+ QuoteJSONString value.

(** The members of SerializeJSONObject for a property list (here the
    keys of the object, each once): a key the object does not have is
    skipped. *)
Fixpoint members (obj : record) (keys : list string) : list string :=
  match keys with
  | [] => []
  | k :: keys' =>
      match Get obj k with
      | Some v => member k v :: members obj keys'
      | None => members obj keys'
      end
  end.

Fixpoint join (sep : string) (parts : list string) : string :=
  match parts with
  | [] => EmptyString
  | [p] => p
  | p :: parts' => p +:+ sep +:+ join sep parts'
  end.

(** [JSON.stringify(obj, keys)] with an array of property names. *)
Definition JSON_stringify (obj : record) (keys : list string) : string :=
  "{" +:+ join "," (members obj keys) +:+ "}".

(** [const encode = obj => Buffer.from(JSON.stringify(obj, Object.keys(obj).sort()))] *)
Definition encode (obj : record) : Buffer :=
  Buffer_from (JSON_stringify obj (sort (Object_keys obj))).

(** A record whose names and values are well-formed. *)
Definition record_valid (obj : record) : bool :=
  forallb (fun kv => utf8_valid kv.1 && utf8_valid kv.2) obj.

(** *** Parsing *)

Definition is_ws (c : ascii) : bool :=
  Ascii.eqb c " "%char || Ascii.eqb c "009"%char || Ascii.eqb c "010"%char || Ascii.eqb c "013"%char.

Fixpoint skip_ws (s : string) : string :=
  match s with
  | String c s' => if is_ws c then skip_ws s' else s
  | EmptyString => s
  end.

Definition hex_value (c : ascii) : option N :=
  let n := code c in
  if (48 <=? n)%N && (n <=? 57)%N then Some (n - 48)%N
  else if (97 <=? n)%N && (n <=? 102)%N then Some (n - 87)%N
  else if (65 <=? n)%N && (n <=? 70)%N then Some (n - 55)%N
  else None.

Definition hex4 (a b c d : ascii) : option N :=
  match hex_value a, hex_value b, hex_value c, hex_value d with
  | Some x, Some y, Some z, Some t => Some (((x * 16 + y) * 16 + z) * 16 + t)%N
  | _, _, _, _ => None
  end.

Definition string_of_codes (l : list N) : string :=
  string_of_list_ascii (map ascii_of_N l).

(** The UTF-8 bytes of a code point. *)
Definition utf8 (cp : N) : string :=
  string_of_codes
    (if cp <? 128 then [cp]
     else if cp <? 2048 then [192 + cp / 64; 128 + cp mod 64]
     else if cp <? 65536 then [224 + cp / 4096; 128 + (cp / 64) mod 64; 128 + cp mod 64]
     else [240 + cp / 262144; 128 + (cp / 4096) mod 64; 128 + (cp / 64) mod 64;
           128 + cp mod 64])%N.

Definition is_high_surrogate (u : N) : bool := (55296 <=? u)%N && (u <? 56320)%N.
Definition is_low_surrogate (u : N) : bool := (56320 <=? u)%N && (u <? 57344)%N.

(** A [\uXXXX] escape that is a high surrogate waits for its low half. *)
Definition flush (pending : option N) : string :=
  match pending with
  | Some h => utf8 h
  | None => EmptyString
  end.

Definition simple_escape (e : ascii) : option ascii :=
  if Ascii.eqb e dquote then Some dquote
  else if Ascii.eqb e backslash then Some backslash
  else if Ascii.eqb e "/"%char then Some "/"%char
  else if Ascii.eqb e "b"%char then Some "008"%char
  else if Ascii.eqb e "f"%char then Some "012"%char
  else if Ascii.eqb e "n"%char then Some "010"%char
  else if Ascii.eqb e "r"%char then Some "013"%char
  else if Ascii.eqb e "t"%char then Some "009"%char
  else None.

Definition prepend (p : string) (r : option (string * string)) : option (string * string) :=
  match r with
  | Some (s, rest) => Some (p +:+ s, rest)
  | None => None
  end.

(** The characters of a string literal, after its opening quote. *)
Fixpoint parse_chars (pending : option N) (s : string) : option (string * string) :=
  match s with
  | EmptyString => None
  | String c rest =>
      if Ascii.eqb c dquote then Some (flush pending, rest)
      else if Ascii.eqb c backslash then
        match rest with
        | String e rest1 =>
            if Ascii.eqb e "u"%char then
              match rest1 with
              | String h1 (String h2 (String h3 (String h4 rest2))) =>
                  match hex4 h1 h2 h3 h4 with
                  | Some u =>
                      match pending with
                      | Some h =>
                          if is_low_surrogate u
                          then prepend (utf8 (65536 + (h - 55296) * 1024 + (u - 56320))%N)
                                       (parse_chars None rest2)
                          else if is_high_surrogate u
                          then prepend (utf8 h) (parse_chars (Some u) rest2)
                          else prepend (utf8 h +:+ utf8 u) (parse_chars None rest2)
                      | None =>
                          if is_high_surrogate u
                          then parse_chars (Some u) rest2
                          else prepend (utf8 u) (parse_chars None rest2)
                      end
                  | None => None
                  end
              | _ => None
              end
            else
              match simple_escape e with
              | Some ch =>
                  prepend (flush pending +:+ String ch EmptyString) (parse_chars None rest1)
              | None => None
              end
        | EmptyString => None
        end
      else if (code c <? 32)%N then None
      else prepend (flush pending +:+ String c EmptyString) (parse_chars None rest)
  end.

Definition is_digit (c : ascii) : bool := (48 <=? code c)%N && (code c <=? 57)%N.

Fixpoint span_digits (s : string) : string * string :=
  match s with
  | String c s' =>
      if is_digit c then let (ds, rest) := span_digits s' in (String c ds, rest)
      else (EmptyString, s)
  | EmptyString => (EmptyString, s)
  end.

(** [strip p s] removes the prefix [p] from [s]. *)
Fixpoint strip (p s : string) : option string :=
  match p, s with
  | EmptyString, _ => Some s
  | String a p', String b s' => if Ascii.eqb a b then strip p' s' else None
  | String _ _, EmptyString => None
  end.

Definition parse_int (s : string) : option (string * string) :=
  match s with
  | String c r =>
      if Ascii.eqb c "0"%char then Some ("0", r)
      else if is_digit c then let (ds, r') := span_digits r in Some (String c ds, r')
      else None
  | EmptyString => None
  end.

Definition parse_frac (s : string) : option (string * string) :=
  match s with
  | String c r =>
      if Ascii.eqb c "."%char then
        match span_digits r with
        | (EmptyString, _) => None
        | (ds, r') => Some (String c ds, r')
        end
      else Some (EmptyString, s)
  | EmptyString => Some (EmptyString, s)
  end.

Definition parse_exp (s : string) : option (string * string) :=
  match s with
  | String c r =>
      if Ascii.eqb c "e"%char || Ascii.eqb c "E"%char then
        let (sign, r1) :=
          match r with
          | String g r0 =>
              if Ascii.eqb g "+"%char || Ascii.eqb g "-"%char
              then (String g EmptyString, r0)
              else (EmptyString, r)
          | EmptyString => (EmptyString, r)
          end in
        match span_digits r1 with
        | (EmptyString, _) => None
        | (ds, r') => Some (String c (sign +:+ ds), r')
        end
      else Some (EmptyString, s)
  | EmptyString => Some (EmptyString, s)
  end.

(** A number: optional minus, integer part, optional fraction and
    exponent; the result is the literal read. *)
Definition parse_number (s : string) : option (string * string) :=
  let (sign, s1) :=
    match s with
    | String c r => if Ascii.eqb c "-"%char then ("-", r) else (EmptyString, s)
    | EmptyString => (EmptyString, s)
    end in
  match parse_int s1 with
  | Some (i, s2) =>
      match parse_frac s2 with
      | Some (f, s3) =>
          match parse_exp s3 with
          | Some (e, s4) => Some (sign +:+ i +:+ f +:+ e, s4)
          | None => None
          end
      | None => None
      end
  | None => None
  end.

(** Defining a property on the object under construction: a key met
    again keeps its place and takes the new value. *)
Fixpoint obj_set (k : string) (v : json) (o : list (string * json)) : list (string * json) :=
  match o with
  | [] => [(k, v)]
  | (k', v') :: o' => if String.eqb k' k then (k, v) :: o' else (k', v') :: obj_set k v o'
  end.

(** The value grammar, by recursion on a fuel.  A call on a text [s]
    needs no more than [2 * length s + 1] steps ([parse_fuel_enough]
    below), so the fuel that [JSON_parse] gives is never exhausted. *)
Fixpoint parse_value (fuel : nat) (s : string) : option (json * string) :=
  match fuel with
  | O => None
  | S fuel' =>
      match skip_ws s with
      | String c rest =>
          if Ascii.eqb c "{"%char then
            match skip_ws rest with
            | String c' rest' =>
                if Ascii.eqb c' "}"%char then Some (JObject [], rest')
                else parse_members fuel' [] rest
            | EmptyString => None
            end
          else if Ascii.eqb c "["%char then
            match skip_ws rest with
            | String c' rest' =>
                if Ascii.eqb c' "]"%char then Some (JArray [], rest')
                else parse_elements fuel' [] rest
            | EmptyString => None
            end
          else if Ascii.eqb c dquote then
            match parse_chars None rest with
            | Some (str, rest') => Some (JString str, rest')
            | None => None
            end
          else if Ascii.eqb c "t"%char then
            match strip "rue" rest with Some rest' => Some (JBool true, rest') | None => None end
          else if Ascii.eqb c "f"%char then
            match strip "alse" rest with Some rest' => Some (JBool false, rest') | None => None end
          else if Ascii.eqb c "n"%char then
            match strip "ull" rest with Some rest' => Some (JNull, rest') | None => None end
          else
            match parse_number (String c rest) with
            | Some (lit, rest') => Some (JNumber lit, rest')
            | None => None
            end
      | EmptyString => None
      end
  end
with parse_members (fuel : nat) (acc : list (string * json)) (s : string)
  : option (json * string) :=
  match fuel with
  | O => None
  | S fuel' =>
      match skip_ws s with
      | String c rest =>
          if Ascii.eqb c dquote then
            match parse_chars None rest with
            | Some (k, rest1) =>
                match skip_ws rest1 with
                | String c1 rest2 =>
                    if Ascii.eqb c1 ":"%char then
                      match parse_value fuel' rest2 with
                      | Some (v, rest3) =>
                          match skip_ws rest3 with
                          | String c3 rest4 =>
                              if Ascii.eqb c3 ","%char
                              then parse_members fuel' (obj_set k v acc) rest4
                              else if Ascii.eqb c3 "}"%char
                              then Some (JObject (obj_set k v acc), rest4)
                              else None
                          | EmptyString => None
                          end
                      | None => None
                      end
                    else None
                | EmptyString => None
                end
            | None => None
            end
          else None
      | EmptyString => None
      end
  end
with parse_elements (fuel : nat) (acc : list json) (s : string)
  : option (json * string) :=
  match fuel with
  | O => None
  | S fuel' =>
      match parse_value fuel' s with
      | Some (v, rest) =>
          match skip_ws rest with
          | String c rest' =>
              if Ascii.eqb c ","%char then parse_elements fuel' (acc ++ [v]) rest'
              else if Ascii.eqb c "]"%char then Some (JArray (acc ++ [v]), rest')
              else None
          | EmptyString => None
          end
      | None => None
      end
  end.

(** ** Errors a handler can throw *)

Inductive error : Type :=
| InvalidTransaction (message : string)
| TypeError
| SyntaxError.

(** [JSON.parse(text)]: one value, white space around it, nothing else. *)
Definition JSON_parse (text : string) : error + json :=
  match parse_value (S (2 * String.length text)) text with
  | Some (v, rest) =>
      match skip_ws rest with
      | EmptyString => inr v
      | String _ _ => inl SyntaxError
      end
  | None => inl SyntaxError
  end.

(** [const decode = buf => JSON.parse(buf.toString())]; the argument is
    [undefined] when the address has no entry. *)
Definition decode (buf : option Buffer) : error + json :=
  match buf with
  | Some b => JSON_parse (Buffer_toString b)
  | None => inl TypeError
  end.

(** [value.owner]: [None] is [undefined]; reading a property of [null]
    throws. *)
Fixpoint GetField (fields : list (string * json)) (key : string) : option json :=
  match fields with
  | [] => None
  | (k, v) :: fields' => if String.eqb k key then Some v else GetField fields' key
  end.

Definition owner_of (v : json) : error + option json :=
  match v with
  | JNull => inl TypeError
  | JObject fields => inr (GetField fields "owner")
  | _ => inr None
  end.

(** [signer !== value] for a string [signer]. *)
Definition strict_ne (signer : string) (value : option json) : bool :=
  match value with
  | Some (JString s) => negb (String.eqb signer s)
  | _ => true
  end.

(** A record as the JSON value it denotes. *)
Definition json_of_record (r : record) : json :=
  JObject (map (fun kv => (fst kv, JString (snd kv))) r).

(** ** Addresses *)

(** [createHash('sha512').update(key).digest('hex').slice(0, length)];
    every call in the file gives the length. *)
Definition getAddress (key : string) (length : nat) : string :=
  substring 0 length (sha512_hex key).

Definition FAMILY : string := "transfer-chain".
Definition PREFIX : string := Eval vm_compute in getAddress FAMILY 6.

Definition getAssetAddress (name : string) : string :=
  PREFIX +:+ "00" +:+ getAddress name 62.

Definition getTransferAddress (asset : string) : string :=
  PREFIX +:+ "10" +:+ getAddress asset 62.
Definition getTransferAcknAddress (asset : string) : string :=
  PREFIX +:+ "11" +:+ getAddress asset 62.
Definition getTransferApproveAddress (asset : string) : string :=
  PREFIX +:+ "12" +:+ getAddress asset 62.

Definition getRegulatorAddress (asset : string) : string :=
  PREFIX +:+ "20" +:+ getAddress asset 62.
Definition getParticipantAddress (asset : string) : string :=
  PREFIX +:+ "21" +:+ getAddress asset 62.

(** ** The validator context and its promises *)

(** What a transaction sees and does: the ledger it reads, and the
    entries it has set so far. *)
Record View : Type := mkView {
  ledger : gmap string Buffer;
  write_set : gmap string Buffer
}.

(** A promise is a computation on the view that resolves to a value or
    rejects with an error. *)
Definition Promise (A : Type) : Type := View -> View * (error + A).

Definition resolve {A : Type} (a : A) : Promise A := fun w => (w, inr a).
Definition throw {A : Type} (e : error) : Promise A := fun w => (w, inl e).

(** [p.then(f)] *)
Definition then_ {A B : Type} (p : Promise A) (f : A -> Promise B) : Promise B :=
  fun w =>
    match p w with
    | (w', inr a) => f a w'
    | (w', inl e) => (w', inl e)
    end.

(** An expression inside a callback that may throw. *)
Definition eval {A : Type} (r : error + A) : Promise A := fun w => (w, r).

Notation "'do' x <- p ; k" := (then_ p (fun x => k))
  (at level 10, x name, p at level 100, k at level 200).

(** [state.get(addresses)]: the entries of the requested addresses, and
    of no other. *)
Definition requested (addresses : list string) (st : gmap string Buffer)
  : gmap string Buffer :=
  filter (fun kv => kv.1 ∈ addresses) st.

Definition state_get (addresses : list string) : Promise (gmap string Buffer) :=
  fun w => (w, inr (requested addresses (ledger w))).

(** [state.set(entries)]: every entry is written; resolves to the
    addresses set. *)
Definition state_set (entries : gmap string Buffer) : Promise (gset string) :=
  fun w => (mkView (entries ∪ ledger w) (entries ∪ write_set w), inr (dom entries)).

(** [entry && entry.length > 0] *)
Definition has_data (entry : option Buffer) : bool :=
  match entry with
  | Some b => (0 <? length b)%nat
  | None => false
  end.

(** [!entry || entry.length === 0] *)
Definition no_data (entry : option Buffer) : bool :=
  match entry with
  | Some b => (length b =? 0)%nat
  | None => true
  end.

(** [Buffer(0)] *)
Definition Buffer0 : Buffer := [].

(** ** The five rules *)

(** Add a new asset to state *)
Definition createAsset (asset owner : string) : Promise (gset string) :=
  let address := getAssetAddress asset in
  do entries <- state_get [address];
  let entry := entries !! address in
  if has_data entry then throw (InvalidTransaction "Asset name in use")
  else state_set (<[address := encode [("name", asset); ("owner", owner)]]> ∅).

(** Add a new transfer to state *)
Definition transferAsset (asset owner signer : string) : Promise (gset string) :=
  let address := getTransferAddress asset in
  let acknAddress := getTransferAcknAddress asset in
  let assetAddress := getAssetAddress asset in
  do entries <- state_get [assetAddress];
  let entry := entries !! assetAddress in
  if no_data entry then throw (InvalidTransaction "Asset does not exist")
  else
    do record <- eval (decode entry);
    do recordOwner <- eval (owner_of record);
    if strict_ne signer recordOwner
    then throw (InvalidTransaction "Only an Asset's owner may transfer it")
    else state_set (<[acknAddress := encode [("asset", asset); ("owner", owner)]]> ∅).

(** Acknowledge a transfer as a purchasee, clearing it and initiating
    changing asset ownership *)
Definition acknowledgeTransfer (asset signer : string) : Promise (gset string) :=
  let acknAddress := getTransferAcknAddress asset in
  let address := getTransferAddress asset in
  do entries <- state_get [acknAddress];
  let entry := entries !! acknAddress in
  if no_data entry then throw (InvalidTransaction "Asset is not being transfered")
  else
    do record <- eval (decode entry);
    do recordOwner <- eval (owner_of record);
    if strict_ne signer recordOwner
    then throw (InvalidTransaction "Transfers can only be acknowledged by the new buyer")
    else state_set
           (<[getTransferApproveAddress asset := encode [("name", asset); ("owner", signer)]]>
              (<[acknAddress := Buffer0]> ∅)).

(** Accept a transfer as a regulator, clearing it and changing asset
    ownership *)
Definition acceptTransfer (asset signer : string) : Promise (gset string) :=
  let acknAddress := getTransferAcknAddress asset in
  let address := getTransferAddress asset in
  do entries <- state_get [acknAddress];
  let entry := entries !! address in
  let regularEntry := entries !! getRegulatorAddress signer in
  if no_data entry then throw (InvalidTransaction "Asset is not being transfered")
  else if no_data regularEntry then throw (InvalidTransaction "You are not a regulator")
  else state_set
         (<[getTransferApproveAddress asset := Buffer0]>
            (<[address := encode [("name", asset); ("owner", signer)]]> ∅)).

(** Reject a transfer, clearing it *)
Definition rejectTransfer (asset signer : string) : Promise (gset string) :=
  let address := getTransferAddress asset in
  do entries <- state_get [address];
  let entry := entries !! address in
  do record <- eval (decode entry);
  do recordOwner <- eval (owner_of record);
  if strict_ne signer recordOwner
  then throw (InvalidTransaction "Transfers can only be rejected by the potential new owner")
  else state_set (<[address := Buffer0]> ∅).

(** ** The handler *)

(** The signer of the header and the fields of the parsed payload, all
    strings.  Only the transfer action reads [owner]; the other actions
    ignore it. *)
Record Transaction : Type := mkTransaction {
  signerPubkey : string;
  action : string;
  asset : string;
  owner : string
}.

Definition quoted (s : string) : string := String dquote (s +:+ String dquote EmptyString).

Definition unknown_action : string :=
  "Action must be " +:+ quoted "create" +:+ ", " +:+ quoted "transfer" +:+ ", "
  +:+ quoted "acknowledge" +:+ ", " +:+ quoted "accept" +:+ ", or " +:+ quoted "reject".

(** [JSONHandler.apply], after the header and the payload are parsed.
    The [console.log] line calls [slice] on the owner, when it is not
    empty, and on the signer: on strings it throws nothing and touches
    no state. *)
Definition apply (txn : Transaction) : Promise (gset string) :=
  let signer := signerPubkey txn in
  if String.eqb (action txn) "create" then createAsset (asset txn) signer
  else if String.eqb (action txn) "transfer" then transferAsset (asset txn) (owner txn) signer
  else if String.eqb (action txn) "acknowledge" then acknowledgeTransfer (asset txn) signer
  else if String.eqb (action txn) "accept" then acceptTransfer (asset txn) signer
  else if String.eqb (action txn) "reject" then rejectTransfer (asset txn) signer
  else do _ <- resolve tt; throw (InvalidTransaction unknown_action).

(** Running a promise against a ledger, with nothing set yet. *)
Definition run {A : Type} (p : Promise A) (st : gmap string Buffer) : View * (error + A) :=
  p (mkView st ∅).

(** The ledger after a transaction: the validator keeps the writes of a
    transaction that resolves and drops a transaction that rejects. *)
Definition commit (st : gmap string Buffer) (txn : Transaction) : gmap string Buffer :=
  match run (apply txn) st with
  | (w, inr _) => ledger w
  | (_, inl _) => st
  end.

(** The ledgers that sequences of transactions produce from the empty
    one. *)
Inductive reachable : gmap string Buffer -> Prop :=
| reachable_empty : reachable ∅
| reachable_commit st txn : reachable st -> reachable (commit st txn).

(** The object that [encode] writes: the properties of [obj] in the
    order of the sorted keys. *)
Fixpoint fields_in (obj : record) (keys : list string) : record :=
  match keys with
  | [] => []
  | k :: keys' =>
      match Get obj k with
      | Some v => (k, v) :: fields_in obj keys'
      | None => fields_in obj keys'
      end
  end.

Definition canonical (obj : record) : record :=
  fields_in obj (sort (Object_keys obj)).

Definition member_of (kv : string * string) : string := member kv.1 kv.2.

(** The properties of [kvs] defined one after the other on [acc]. *)
Definition define_all (acc : list (string * json)) (kvs : record) : list (string * json) :=
  fold_left (fun o kv => obj_set kv.1 (JString kv.2) o) kvs acc.

(** The rules at given arguments. *)
Definition five_rules (asset owner signer : string) : list (Promise (gset string)) :=
  [ createAsset asset signer;
    transferAsset asset owner signer;
    acknowledgeTransfer asset signer;
    acceptTransfer asset signer;
    rejectTransfer asset signer ].

(** A rejection that is not an [InvalidTransaction]. *)
Definition untyped (e : error) : bool :=
  match e with
  | InvalidTransaction _ => false
  | TypeError | SyntaxError => true
  end.

(** The end-to-end scenario of the specification, up to the regulator's
    step: the asset created by alice, offered to bob, acknowledged by bob,
    with regulator1 registered. *)
Definition widget_created : gmap string Buffer :=
  commit ∅ (mkTransaction "alice" "create" "widget" EmptyString).
Definition widget_offered : gmap string Buffer :=
  commit widget_created (mkTransaction "alice" "transfer" "widget" "bob").
Definition widget_acknowledged : gmap string Buffer :=
  commit widget_offered (mkTransaction "bob" "acknowledge" "widget" EmptyString).
Definition widget_pending : gmap string Buffer :=
  <[getRegulatorAddress "regulator1" := encode [("name", "regulator1")]]> widget_acknowledged.

(** No entry at the transfer address of any asset. *)
Definition no_transfer_entry (st : gmap string Buffer) : Prop :=
  forall asset : string, st !! getTransferAddress asset = None.

(** ** Definitions for the properties of the whole file *)

(** A lower-case hexadecimal digit, as [digest('hex')] writes them. *)
Definition is_hex (c : ascii) : bool :=
  ((48 <=? code c)%N && (code c <=? 57)%N) || ((97 <=? code c)%N && (code c <=? 102)%N).

Definition all_hex (s : string) : bool := forallb is_hex (list_ascii_of_string s).

(** The six address functions, in the order of the file. *)
Definition address_functions : list (string -> string) :=
  [ getAssetAddress; getTransferAddress; getTransferAcknAddress;
    getTransferApproveAddress; getRegulatorAddress; getParticipantAddress ].

(** What a transaction can do to the ledger: nothing, or the write of
    the one rule that resolved. *)
Inductive effect (st : gmap string Buffer) (txn : Transaction) : gmap string Buffer -> Prop :=
| effect_none : effect st txn st
| effect_create :
    has_data (st !! getAssetAddress (asset txn)) = false ->
    effect st txn
      (<[getAssetAddress (asset txn) :=
           encode [("name", asset txn); ("owner", signerPubkey txn)]]> ∅ ∪ st)
| effect_transfer entry fields :
    st !! getAssetAddress (asset txn) = Some entry ->
    decode (Some entry) = inr (JObject fields) ->
    GetField fields "owner" = Some (JString (signerPubkey txn)) ->
    effect st txn
      (<[getTransferAcknAddress (asset txn) :=
           encode [("asset", asset txn); ("owner", owner txn)]]> ∅ ∪ st)
| effect_acknowledge entry fields :
    st !! getTransferAcknAddress (asset txn) = Some entry ->
    decode (Some entry) = inr (JObject fields) ->
    GetField fields "owner" = Some (JString (signerPubkey txn)) ->
    effect st txn
      (<[getTransferApproveAddress (asset txn) :=
           encode [("name", asset txn); ("owner", signerPubkey txn)]]>
         (<[getTransferAcknAddress (asset txn) := Buffer0]> ∅) ∪ st)
| effect_reject entry fields :
    st !! getTransferAddress (asset txn) = Some entry ->
    decode (Some entry) = inr (JObject fields) ->
    GetField fields "owner" = Some (JString (signerPubkey txn)) ->
    effect st txn (<[getTransferAddress (asset txn) := Buffer0]> ∅ ∪ st).

(** The result of a run of [apply], rule by rule. *)
Inductive outcome (st : gmap string Buffer) (txn : Transaction)
  : View * (error + gset string) -> Prop :=
| outcome_rejected e : outcome st txn (mkView st ∅, inl e)
| outcome_resolved writes :
    effect st txn (writes ∪ st) ->
    writes ∈ [ <[getAssetAddress (asset txn) :=
                   encode [("name", asset txn); ("owner", signerPubkey txn)]]> ∅;
               <[getTransferAcknAddress (asset txn) :=
                   encode [("asset", asset txn); ("owner", owner txn)]]> ∅;
               <[getTransferApproveAddress (asset txn) :=
                   encode [("name", asset txn); ("owner", signerPubkey txn)]]>
                 (<[getTransferAcknAddress (asset txn) := Buffer0]> ∅);
               <[getTransferAddress (asset txn) := Buffer0]> ∅ ] ->
    outcome st txn (mkView (writes ∪ st) writes, inr (dom writes)).

(** [JSONHandler]'s constructor: [super(FAMILY, '0.0', 'application/json', [PREFIX])]. *)
Record TransactionHandler : Type := mkTransactionHandler {
  transactionFamilyName : string;
  version : string;
  encoding : string;
  namespaces : list string
}.

Definition JSONHandler : TransactionHandler :=
  mkTransactionHandler FAMILY "0.0" "application/json" [PREFIX].

(** The addresses a transaction on an asset can touch. *)
Definition transaction_addresses (asset : string) : list string :=
  [ getAssetAddress asset; getTransferAddress asset;
    getTransferAcknAddress asset; getTransferApproveAddress asset ].

(** The actions [apply] dispatches on. *)
(** Every entry of the three kinds the rules write holds what a rule
    wrote there, for a transaction with strings in its fields. *)
Definition well_formed (st : gmap string Buffer) : Prop :=
  (forall a entry, st !! getAssetAddress a = Some entry ->
     exists name owner, entry = encode [("name", name); ("owner", owner)]) /\
  (forall a entry, st !! getTransferAcknAddress a = Some entry ->
     entry = Buffer0 \/
     exists asset owner, entry = encode [("asset", asset); ("owner", owner)]) /\
  (forall a entry, st !! getTransferApproveAddress a = Some entry ->
     exists name owner, entry = encode [("name", name); ("owner", owner)]).

(** * Properties *)

(** ** The hash and the namespace *)

(** The test vector of FIPS 180-4 for the message abc. *)
Example sha512_abc :
  sha512_hex "abc" =
  "ddaf35a193617abacc417349ae20413112e6fa4e89a97ea20a9eeee64b55d39a2192992a274fc1a836ba3c23a3feebbd454d4423643ce80e2a9ac94fa54ca49f".
Proof. vm_compute. reflexivity. Qed.

(** A message of two blocks: two hundred times the letter a. *)
Example sha512_two_blocks :
  sha512_hex (string_of_list_ascii (repeat "a"%char 200)) =
  "4b11459c33f52a22ee8236782714c150a3b2c60994e9acee17fe68947a3e6789f31e7668394592da7bef827cddca88c4e6f86e4df7ed1ae6cba71f3e98faee9f".
Proof. vm_compute. reflexivity. Qed.

Example PREFIX_value : PREFIX = "19d832" /\ PREFIX = getAddress FAMILY 6.
Proof. split; vm_compute; reflexivity. Qed.

Example widget_asset_address :
  getAssetAddress "widget" =
  "19d83200488de9b786e56e5542751a98d65db3df4ecfc22ce85f48a74f63246a65328f".
Proof. vm_compute. reflexivity. Qed.

(** ** The codec on examples *)

Example encode_widget :
  Buffer_toString (encode [("owner", "alice"); ("name", "widget")]) =
  "{" +:+ quoted "name" +:+ ":" +:+ quoted "widget" +:+ ","
      +:+ quoted "owner" +:+ ":" +:+ quoted "alice" +:+ "}".
Proof. vm_compute. reflexivity. Qed.

Example quote_control :
  QuoteJSONString (string_of_codes [1; 9; 34; 92; 127]%N) =
  quoted ("\u0001\t\" +:+ String dquote "\\" +:+ string_of_codes [127]%N).
Proof. vm_compute. reflexivity. Qed.

Example parse_array :
  JSON_parse " [1, -2.5e-3, true, null, {}, []] " =
  inr (JArray [JNumber "1"; JNumber "-2.5e-3"; JBool true; JNull; JObject []; JArray []]).
Proof. vm_compute. reflexivity. Qed.

Example parse_duplicate_key :
  JSON_parse ("{" +:+ quoted "a" +:+ ":1," +:+ quoted "b" +:+ ":2," +:+ quoted "a" +:+ ":3}") =
  inr (JObject [("a", JNumber "3"); ("b", JNumber "2")]).
Proof. vm_compute. reflexivity. Qed.

Example parse_escapes :
  JSON_parse (quoted "\u00e9\ud83d\ude00\n\/") =
  inr (JString (string_of_codes [195; 169; 240; 159; 152; 128; 10; 47]%N)).
Proof. vm_compute. reflexivity. Qed.

Example parse_errors :
  JSON_parse EmptyString = inl SyntaxError /\ JSON_parse "01" = inl SyntaxError /\
  JSON_parse "[1,]" = inl SyntaxError /\ JSON_parse "{} x" = inl SyntaxError /\
  JSON_parse "1." = inl SyntaxError /\ JSON_parse "tru" = inl SyntaxError.
Proof. vm_compute. repeat split. Qed.

(** ** Strings *)

Lemma append_assoc (s1 s2 s3 : string) : (s1 +:+ s2) +:+ s3 = s1 +:+ (s2 +:+ s3).
Proof.
  induction s1 as [|c s1 IH]; [reflexivity|].
  change (String c ((s1 +:+ s2) +:+ s3) = String c (s1 +:+ (s2 +:+ s3))).
  now rewrite IH.
Qed.

Lemma append_cons (c : ascii) (s t : string) : String c s +:+ t = String c (s +:+ t).
Proof. reflexivity. Qed.

Lemma append_empty_l (t : string) : EmptyString +:+ t = t.
Proof. reflexivity. Qed.

Lemma length_append (s t : string) :
  String.length (s +:+ t) = (String.length s + String.length t)%nat.
Proof.
  induction s as [|c s IH]; [reflexivity|].
  rewrite append_cons. cbn [String.length]. now rewrite IH.
Qed.

(** ** The fuel of the parser *)

(** What a parser leaves is no longer than what it was given. *)
Lemma skip_ws_length (s : string) : String.length (skip_ws s) <= String.length s.
Proof.
  induction s as [|c s IH]; cbn [skip_ws]; [lia|].
  destruct (is_ws c); cbn [String.length]; lia.
Qed.

Lemma prepend_Some (p : string) (r : option (string * string)) (k rest : string) :
  prepend p r = Some (k, rest) -> exists k', r = Some (k', rest).
Proof. destruct r as [[k' rest']|]; [|discriminate]. intros [= _ <-]. eauto. Qed.

Lemma parse_chars_length (n : nat) :
  forall (s : string) (pending : option N) (k rest : string),
    String.length s <= n ->
    parse_chars pending s = Some (k, rest) ->
    String.length rest < String.length s.
Proof.
  induction n as [|n IH]; intros s pending k rest Hn Hparse.
  - destruct s; [discriminate Hparse|cbn in Hn; lia].
  - destruct s as [|c s]; [discriminate Hparse|].
    cbn [String.length] in *. cbn [parse_chars] in Hparse.
    destruct (Ascii.eqb c dquote).
    { injection Hparse as _ <-. lia. }
    destruct (Ascii.eqb c backslash).
    + destruct s as [|e s]; [discriminate Hparse|]. cbn [String.length] in *.
      destruct (Ascii.eqb e "u"%char).
      * destruct s as [|h1 [|h2 [|h3 [|h4 s]]]]; try discriminate Hparse.
        cbn [String.length] in *.
        destruct (hex4 h1 h2 h3 h4) as [u|]; [|discriminate Hparse].
        destruct pending as [h|].
        -- destruct (is_low_surrogate u); [|destruct (is_high_surrogate u)];
             apply prepend_Some in Hparse as [k' Hparse];
             apply IH in Hparse; lia.
        -- destruct (is_high_surrogate u).
           ++ apply IH in Hparse; lia.
           ++ apply prepend_Some in Hparse as [k' Hparse]. apply IH in Hparse; lia.
      * destruct (simple_escape e); [|discriminate Hparse].
        apply prepend_Some in Hparse as [k' Hparse]. apply IH in Hparse; lia.
    + destruct (code c <? 32)%N; [discriminate Hparse|].
      apply prepend_Some in Hparse as [k' Hparse]. apply IH in Hparse; lia.
Qed.

Lemma span_digits_length (s ds rest : string) :
  span_digits s = (ds, rest) -> String.length rest <= String.length s.
Proof.
  revert ds rest. induction s as [|c s IH]; intros ds rest; cbn [span_digits].
  - intros [= _ <-]. lia.
  - destruct (is_digit c).
    + destruct (span_digits s) as [ds' rest'] eqn:Hs. intros [= _ <-].
      specialize (IH _ _ eq_refl). cbn [String.length]. lia.
    + intros [= _ <-]. lia.
Qed.

Lemma strip_length (p s rest : string) :
  strip p s = Some rest -> String.length rest <= String.length s.
Proof.
  revert s. induction p as [|a p IH]; intros s; cbn [strip].
  - intros [= <-]. lia.
  - destruct s as [|b s]; [discriminate|]. destruct (Ascii.eqb a b); [|discriminate].
    intros H%IH. cbn [String.length]. lia.
Qed.

Lemma parse_int_length (s i rest : string) :
  parse_int s = Some (i, rest) -> String.length rest <= String.length s.
Proof.
  unfold parse_int. destruct s as [|c s]; [discriminate|]. cbn [String.length].
  destruct (Ascii.eqb c "0"%char); [intros [= _ <-]; lia|].
  destruct (is_digit c); [|discriminate].
  destruct (span_digits s) as [ds r] eqn:Hs. intros [= _ <-].
  apply span_digits_length in Hs. lia.
Qed.

Lemma parse_frac_length (s f rest : string) :
  parse_frac s = Some (f, rest) -> String.length rest <= String.length s.
Proof.
  unfold parse_frac. destruct s as [|c s]; [intros [= _ <-]; lia|]. cbn [String.length].
  destruct (Ascii.eqb c "."%char); [|intros [= _ <-]; cbn [String.length]; lia].
  destruct (span_digits s) as [ds r] eqn:Hs. apply span_digits_length in Hs.
  destruct ds; [discriminate|]. intros [= _ <-]. lia.
Qed.

Lemma parse_exp_length (s e rest : string) :
  parse_exp s = Some (e, rest) -> String.length rest <= String.length s.
Proof.
  unfold parse_exp. destruct s as [|c s]; [intros [= _ <-]; lia|]. cbn [String.length].
  destruct (Ascii.eqb c "e"%char || Ascii.eqb c "E"%char);
    [|intros [= _ <-]; cbn [String.length]; lia].
  assert (forall sign r1, String.length r1 <= String.length s ->
            match span_digits r1 with
            | (EmptyString, _) => None
            | (ds, r') => Some (String c (sign +:+ ds), r')
            end = Some (e, rest) -> String.length rest <= S (String.length s)) as Hds.
  { intros sign r1 Hr1. destruct (span_digits r1) as [ds r] eqn:Hs.
    apply span_digits_length in Hs. destruct ds; [discriminate|]. intros [= _ <-]. lia. }
  destruct s as [|g s]; [now apply Hds|].
  destruct (Ascii.eqb g "+"%char || Ascii.eqb g "-"%char); apply Hds; cbn [String.length]; lia.
Qed.

Lemma parse_number_length (s lit rest : string) :
  parse_number s = Some (lit, rest) -> String.length rest <= String.length s.
Proof.
  unfold parse_number.
  assert (forall sign s1, String.length s1 <= String.length s ->
            match parse_int s1 with
            | Some (i, s2) =>
                match parse_frac s2 with
                | Some (f, s3) =>
                    match parse_exp s3 with
                    | Some (e, s4) => Some (sign +:+ i +:+ f +:+ e, s4)
                    | None => None
                    end
                | None => None
                end
            | None => None
            end = Some (lit, rest) -> String.length rest <= String.length s) as Hgo.
  { intros sign s1 Hs1.
    destruct (parse_int s1) as [[i s2]|] eqn:Hi; [|discriminate].
    destruct (parse_frac s2) as [[f s3]|] eqn:Hf; [|discriminate].
    destruct (parse_exp s3) as [[e s4]|] eqn:He; [|discriminate].
    intros [= _ <-].
    apply parse_int_length in Hi. apply parse_frac_length in Hf.
    apply parse_exp_length in He. lia. }
  destruct s as [|c s]; [now apply Hgo|].
  destruct (Ascii.eqb c "-"%char); apply Hgo; cbn [String.length]; lia.
Qed.

Lemma parse_length (n : nat) :
  (forall s v rest, parse_value n s = Some (v, rest) ->
                    String.length rest <= String.length s) /\
  (forall acc s v rest, parse_members n acc s = Some (v, rest) ->
                        String.length rest <= String.length s) /\
  (forall acc s v rest, parse_elements n acc s = Some (v, rest) ->
                        String.length rest <= String.length s).
Proof.
  induction n as [|n (IHv & IHm & IHe)]; [repeat split; discriminate|].
  split; [|split].
  - intros s v rest. cbn [parse_value].
    pose proof (skip_ws_length s) as Hs.
    destruct (skip_ws s) as [|c s1]; [discriminate|]. cbn [String.length] in Hs.
    destruct (Ascii.eqb c "{"%char).
    { pose proof (skip_ws_length s1) as Hs1.
      destruct (skip_ws s1) as [|c' s2]; [discriminate|]. cbn [String.length] in Hs1.
      destruct (Ascii.eqb c' "}"%char); [intros [= _ <-]; lia|].
      intros H%IHm. lia. }
    destruct (Ascii.eqb c "["%char).
    { pose proof (skip_ws_length s1) as Hs1.
      destruct (skip_ws s1) as [|c' s2]; [discriminate|]. cbn [String.length] in Hs1.
      destruct (Ascii.eqb c' "]"%char); [intros [= _ <-]; lia|].
      intros H%IHe. lia. }
    destruct (Ascii.eqb c dquote).
    { destruct (parse_chars None s1) as [[str r]|] eqn:Hc; [|discriminate].
      apply (parse_chars_length _ _ _ _ _ (le_n _)) in Hc. intros [= _ <-]. lia. }
    destruct (Ascii.eqb c "t"%char).
    { destruct (strip "rue" s1) as [r|] eqn:Hr; [|discriminate].
      apply strip_length in Hr. intros [= _ <-]. lia. }
    destruct (Ascii.eqb c "f"%char).
    { destruct (strip "alse" s1) as [r|] eqn:Hr; [|discriminate].
      apply strip_length in Hr. intros [= _ <-]. lia. }
    destruct (Ascii.eqb c "n"%char).
    { destruct (strip "ull" s1) as [r|] eqn:Hr; [|discriminate].
      apply strip_length in Hr. intros [= _ <-]. lia. }
    destruct (parse_number (String c s1)) as [[lit r]|] eqn:Hnum; [|discriminate].
    apply parse_number_length in Hnum. cbn [String.length] in Hnum.
    intros [= _ <-]. lia.
  - intros acc s v rest. cbn [parse_members].
    pose proof (skip_ws_length s) as Hs.
    destruct (skip_ws s) as [|c s1]; [discriminate|]. cbn [String.length] in Hs.
    destruct (Ascii.eqb c dquote); [|discriminate].
    destruct (parse_chars None s1) as [[k r1]|] eqn:Hc; [|discriminate].
    apply (parse_chars_length _ _ _ _ _ (le_n _)) in Hc.
    pose proof (skip_ws_length r1) as Hr1.
    destruct (skip_ws r1) as [|c1 r2]; [discriminate|]. cbn [String.length] in Hr1.
    destruct (Ascii.eqb c1 ":"%char); [|discriminate].
    destruct (parse_value n r2) as [[v0 r3]|] eqn:Hv; [|discriminate].
    apply IHv in Hv.
    pose proof (skip_ws_length r3) as Hr3.
    destruct (skip_ws r3) as [|c3 r4]; [discriminate|]. cbn [String.length] in Hr3.
    destruct (Ascii.eqb c3 ","%char); [intros H%IHm; lia|].
    destruct (Ascii.eqb c3 "}"%char); [|discriminate].
    intros [= _ <-]. lia.
  - intros acc s v rest. cbn [parse_elements].
    destruct (parse_value n s) as [[v0 r1]|] eqn:Hv; [|discriminate].
    apply IHv in Hv.
    pose proof (skip_ws_length r1) as Hr1.
    destruct (skip_ws r1) as [|c r2]; [discriminate|]. cbn [String.length] in Hr1.
    destruct (Ascii.eqb c ","%char); [intros H%IHe; lia|].
    destruct (Ascii.eqb c "]"%char); [|discriminate].
    intros [= _ <-]. lia.
Qed.

(** More fuel than twice the length of the text changes nothing. *)
Lemma parse_fuel_stable (n : nat) :
  (forall s m, 2 * String.length s + 1 <= n -> 2 * String.length s + 1 <= m ->
               parse_value n s = parse_value m s) /\
  (forall acc s m, 2 * String.length s <= n -> 2 * String.length s <= m ->
                   parse_members n acc s = parse_members m acc s) /\
  (forall acc s m, 2 * String.length s + 2 <= n -> 2 * String.length s + 2 <= m ->
                   parse_elements n acc s = parse_elements m acc s).
Proof.
  induction n as [|n (IHv & IHm & IHe)].
  { split; [|split]; intros; try lia.
    destruct s; [|cbn [String.length] in *; lia]. now destruct m. }
  split; [|split].
  - intros s [|m] Hn Hm; [lia|]. cbn [parse_value].
    pose proof (skip_ws_length s) as Hs.
    destruct (skip_ws s) as [|c s1]; [reflexivity|]. cbn [String.length] in Hs.
    destruct (Ascii.eqb c "{"%char).
    { destruct (skip_ws s1) as [|c' s2]; [reflexivity|].
      destruct (Ascii.eqb c' "}"%char); [reflexivity|]. apply IHm; lia. }
    destruct (Ascii.eqb c "["%char); [|reflexivity].
    destruct (skip_ws s1) as [|c' s2]; [reflexivity|].
    destruct (Ascii.eqb c' "]"%char); [reflexivity|]. apply IHe; lia.
  - intros acc s [|m] Hn Hm.
    { destruct s; [reflexivity|cbn [String.length] in *; lia]. }
    cbn [parse_members].
    pose proof (skip_ws_length s) as Hs.
    destruct (skip_ws s) as [|c s1]; [reflexivity|]. cbn [String.length] in Hs.
    destruct (Ascii.eqb c dquote); [|reflexivity].
    destruct (parse_chars None s1) as [[k r1]|] eqn:Hc; [|reflexivity].
    apply (parse_chars_length _ _ _ _ _ (le_n _)) in Hc.
    pose proof (skip_ws_length r1) as Hr1.
    destruct (skip_ws r1) as [|c1 r2]; [reflexivity|]. cbn [String.length] in Hr1.
    destruct (Ascii.eqb c1 ":"%char); [|reflexivity].
    rewrite (IHv r2 m) by lia.
    destruct (parse_value m r2) as [[v0 r3]|] eqn:Hv; [|reflexivity].
    apply (parse_length m) in Hv.
    pose proof (skip_ws_length r3) as Hr3.
    destruct (skip_ws r3) as [|c3 r4]; [reflexivity|]. cbn [String.length] in Hr3.
    destruct (Ascii.eqb c3 ","%char); [|reflexivity]. apply IHm; lia.
  - intros acc s [|m] Hn Hm; [lia|]. cbn [parse_elements].
    rewrite (IHv s m) by lia.
    destruct (parse_value m s) as [[v0 r1]|] eqn:Hv; [|reflexivity].
    apply (parse_length m) in Hv.
    pose proof (skip_ws_length r1) as Hr1.
    destruct (skip_ws r1) as [|c r2]; [reflexivity|]. cbn [String.length] in Hr1.
    destruct (Ascii.eqb c ","%char); [|reflexivity]. apply IHe; lia.
Qed.

(** The fuel of [JSON_parse] is enough: no larger fuel gives another
    result. *)
Lemma parse_fuel_enough (text : string) (fuel : nat) :
  2 * String.length text < fuel ->
  parse_value fuel text = parse_value (S (2 * String.length text)) text.
Proof. intros Hfuel. apply parse_fuel_stable; lia. Qed.

(** ** The codec *)

Lemma parse_quote_char (c : ascii) (s : string) :
  parse_chars None (quote_char c +:+ s) = prepend (String c EmptyString) (parse_chars None s).
Proof. destruct c as [[] [] [] [] [] [] [] []]; reflexivity. Qed.

Lemma parse_quote_chars (s rest : string) :
  parse_chars None (quote_chars s +:+ String dquote rest) = Some (s, rest).
Proof.
  induction s as [|c s IH]; [reflexivity|].
  cbn [quote_chars]. rewrite append_assoc, parse_quote_char, IH. reflexivity.
Qed.

Lemma QuoteJSONString_app (s rest : string) :
  QuoteJSONString s +:+ rest = String dquote (quote_chars s +:+ String dquote rest).
Proof.
  unfold QuoteJSONString. rewrite append_cons, append_assoc. reflexivity.
Qed.

Lemma parse_value_string (fuel : nat) (s rest : string) :
  parse_value (S fuel) (QuoteJSONString s +:+ rest) = Some (JString s, rest).
Proof.
  rewrite QuoteJSONString_app.
  change (match parse_chars None (quote_chars s +:+ String dquote rest) with
          | Some (str, rest') => Some (JString str, rest')
          | None => None
          end = Some (JString s, rest)).
  now rewrite parse_quote_chars.
Qed.

(** One step of the member loop: a member read, the character after it
    decides. *)
Lemma parse_members_step (fuel : nat) (acc : list (string * json))
    (k v : string) (c : ascii) (rest : string) :
  is_ws c = false ->
  parse_members (S (S fuel)) acc (member k v +:+ String c rest) =
  if Ascii.eqb c ","%char then parse_members (S fuel) (obj_set k (JString v) acc) rest
  else if Ascii.eqb c "}"%char then Some (JObject (obj_set k (JString v) acc), rest)
  else None.
Proof.
  intros Hc. unfold member. rewrite !append_assoc, QuoteJSONString_app.
  change (parse_members (S (S fuel)) acc (String dquote ?t))
    with (match parse_chars None t with
          | Some (k0, rest1) =>
              match skip_ws rest1 with
              | String c1 rest2 =>
                  if Ascii.eqb c1 ":"%char then
                    match parse_value (S fuel) rest2 with
                    | Some (v0, rest3) =>
                        match skip_ws rest3 with
                        | String c3 rest4 =>
                            if Ascii.eqb c3 ","%char
                            then parse_members (S fuel) (obj_set k0 v0 acc) rest4
                            else if Ascii.eqb c3 "}"%char
                            then Some (JObject (obj_set k0 v0 acc), rest4)
                            else None
                        | EmptyString => None
                        end
                    | None => None
                    end
                  else None
              | EmptyString => None
              end
          | None => None
          end).
  rewrite parse_quote_chars.
  change (skip_ws (":" +:+ ?t)) with (String ":"%char t).
  change (Ascii.eqb ":"%char ":"%char) with true. cbv iota.
  rewrite parse_value_string. cbn [skip_ws]. rewrite Hc. reflexivity.
Qed.

Lemma members_fields (obj : record) (keys : list string) :
  members obj keys = map member_of (fields_in obj keys).
Proof.
  induction keys as [|k keys IH]; [reflexivity|].
  cbn [members fields_in]. destruct (Get obj k); cbn [map]; now rewrite IH.
Qed.

Lemma parse_members_loop (kvs : record) :
  forall (acc : list (string * json)) (fuel : nat) (rest : string),
    kvs <> [] ->
    (length kvs < fuel)%nat ->
    parse_members fuel acc (join "," (map member_of kvs) +:+ "}" +:+ rest) =
    Some (JObject (define_all acc kvs), rest).
Proof.
  induction kvs as [|[k v] kvs IH]; intros acc fuel rest Hne Hfuel; [congruence|].
  destruct fuel as [|[|fuel]]; cbn [length] in Hfuel; try lia.
  destruct kvs as [|kv2 kvs].
  - cbn [map join]. unfold member_of; cbn [fst snd].
    change ("}" +:+ rest) with (String "}"%char rest).
    rewrite parse_members_step by reflexivity. reflexivity.
  - change (join "," (map member_of ((k, v) :: kv2 :: kvs)))
      with (member k v +:+ "," +:+ join "," (map member_of (kv2 :: kvs))).
    rewrite !append_assoc.
    change ("," +:+ ?t) with (String ","%char t).
    rewrite parse_members_step by reflexivity.
    change (Ascii.eqb ","%char ","%char) with true. cbv iota.
    rewrite IH; [reflexivity|discriminate|cbn [length] in *; lia].
Qed.

Lemma obj_set_fresh (k : string) (v : json) (o : list (string * json)) :
  k ∉ map fst o -> obj_set k v o = o ++ [(k, v)].
Proof.
  induction o as [|[k' v'] o IH]; intros Hk; [reflexivity|].
  cbn [map fst] in Hk. apply not_elem_of_cons in Hk as [Hne Hk].
  cbn [obj_set]. destruct (String.eqb_spec k' k) as [->|_]; [congruence|].
  cbn [app]. now rewrite IH.
Qed.

Lemma define_all_fresh (kvs : record) :
  forall acc : list (string * json),
    NoDup (map fst acc ++ map fst kvs) ->
    define_all acc kvs = acc ++ map (fun kv => (kv.1, JString kv.2)) kvs.
Proof.
  induction kvs as [|[k v] kvs IH]; intros acc Hnd.
  - cbn. now rewrite app_nil_r.
  - cbn [map fst] in Hnd.
    unfold define_all. cbn [fold_left fst snd map].
    fold (define_all (obj_set k (JString v) acc) kvs).
    assert (k ∉ map fst acc) as Hk.
    { apply NoDup_app in Hnd as (_ & Hdisj & _). intros Hin.
      apply (Hdisj k Hin). left. }
    rewrite obj_set_fresh by exact Hk.
    rewrite IH.
    + now rewrite <- app_assoc.
    + rewrite map_app. cbn [map fst]. rewrite <- app_assoc. exact Hnd.
Qed.

Lemma member_length (k v : string) : (1 <= String.length (member k v))%nat.
Proof. unfold member. rewrite QuoteJSONString_app. cbn [String.length]. lia. Qed.

Lemma join_members_length (kvs : record) :
  (length kvs <= String.length (join "," (map member_of kvs)))%nat.
Proof.
  induction kvs as [|[k v] kvs IH]; [cbn; lia|].
  pose proof (member_length k v) as Hm.
  destruct kvs as [|kv2 kvs].
  - cbn [map join length]. unfold member_of; cbn [fst snd]. lia.
  - change (join "," (map member_of ((k, v) :: kv2 :: kvs)))
      with (member k v +:+ "," +:+ join "," (map member_of (kv2 :: kvs))).
    rewrite !length_append. cbn [length] in *. lia.
Qed.

Lemma join_members_head (kvs : record) :
  kvs <> [] -> exists t, join "," (map member_of kvs) = String dquote t.
Proof.
  destruct kvs as [|[k v] [|kv2 kvs]]; intros Hne; [congruence| |].
  - cbn [map join]. unfold member_of, member. cbn [fst snd].
    rewrite QuoteJSONString_app. eauto.
  - change (join "," (map member_of ((k, v) :: kv2 :: kvs)))
      with (member k v +:+ "," +:+ join "," (map member_of (kv2 :: kvs))).
    unfold member. rewrite !append_assoc, QuoteJSONString_app. eauto.
Qed.

(** Parsing what [JSON.stringify] wrote gives the object back. *)
Lemma JSON_parse_stringify (obj : record) (keys : list string) :
  NoDup (map fst (fields_in obj keys)) ->
  JSON_parse (JSON_stringify obj keys) = inr (json_of_record (fields_in obj keys)).
Proof.
  intros Hnd. unfold JSON_stringify, JSON_parse. rewrite members_fields.
  generalize dependent (fields_in obj keys). intros kvs Hnd.
  rewrite append_cons, append_empty_l.
  destruct (decide (kvs = [])) as [->|Hne]; [reflexivity|].
  pose proof (join_members_length kvs) as Hlen.
  destruct (join_members_head kvs Hne) as [t Ht].
  set (body := join "," (map member_of kvs)) in *.
  set (fuel := (2 * String.length (String "{"%char (body +:+ "}")))%nat).
  change (parse_value (S fuel) (String "{"%char (body +:+ "}")))
    with (match skip_ws (body +:+ "}") with
          | String c' rest' =>
              if Ascii.eqb c' "}"%char then Some (JObject [], rest')
              else parse_members fuel [] (body +:+ "}")
          | EmptyString => None
          end).
  replace (skip_ws (body +:+ "}")) with (String dquote (t +:+ "}"))
    by (rewrite Ht; reflexivity).
  change (Ascii.eqb dquote "}"%char) with false. cbv iota.
  replace (body +:+ "}") with (body +:+ "}" +:+ EmptyString) by reflexivity.
  subst fuel body. rewrite parse_members_loop.
  - cbn [skip_ws]. unfold json_of_record. f_equal. f_equal.
    apply define_all_fresh. exact Hnd.
  - exact Hne.
  - cbn [String.length]. rewrite length_append. lia.
Qed.

(** ** The order of keys *)

Lemma units_key_inj (us1 : list N) :
  forall (us2 : list N) (s1 s2 : string),
    units_key us1 s1 = units_key us2 s2 -> s1 = s2.
Proof.
  induction us1 as [|u1 us1 IH]; intros [|u2 us2] s1 s2; cbn [units_key];
    try discriminate.
  - now intros [= ->].
  - intros [= _ _ H]. now apply IH in H.
Qed.

Lemma sort_key_inj (s t : string) : sort_key s = sort_key t -> s = t.
Proof. apply units_key_inj. Qed.

Lemma code_lt_256 (c : ascii) : (code c < 256)%N.
Proof. apply N_ascii_bounded. Qed.

Lemma in_range_bounds (lo hi : N) (c : ascii) :
  in_range lo hi c = true -> (lo <= code c <= hi)%N.
Proof. unfold in_range. intros [H1%N.leb_le H2%N.leb_le]%andb_true_iff. lia. Qed.

Lemma code_units_bounded (n : nat) :
  forall s, String.length s <= n -> Forall (fun u => (u < 65536)%N) (code_units s).
Proof.
  induction n as [|n IH]; intros s Hn.
  { destruct s; [constructor|cbn in Hn; lia]. }
  destruct s as [|b0 s1]; [constructor|]. cbn [String.length] in Hn.
  pose proof (code_lt_256 b0) as H0.
  assert (Forall (fun u => (u < 65536)%N) (code_units s1)) as Hs1 by (apply IH; lia).
  cbn [code_units].
  destruct (code b0 <? 128)%N; [constructor; [lia|exact Hs1]|].
  destruct s1 as [|b1 s2]; [repeat constructor|]. cbn [String.length] in Hn.
  destruct (in_range 192 223 b0 && is_cont b1) eqn:H2.
  { apply andb_true_iff in H2 as [Hb0%in_range_bounds Hb1%in_range_bounds].
    constructor; [lia|apply IH; lia]. }
  destruct s2 as [|b2 s3]; [constructor; [lia|exact Hs1]|]. cbn [String.length] in Hn.
  destruct (in_range 224 239 b0 && is_cont b1 && is_cont b2) eqn:H3.
  { apply andb_true_iff in H3 as [[Hb0%in_range_bounds Hb1%in_range_bounds]%andb_true_iff
                                    Hb2%in_range_bounds].
    constructor; [lia|apply IH; lia]. }
  destruct s3 as [|b3 s4]; [constructor; [lia|exact Hs1]|]. cbn [String.length] in Hn.
  destruct (in_range 240 244 b0 && is_cont b1 && is_cont b2 && is_cont b3) eqn:H4;
    [|constructor; [lia|exact Hs1]].
  apply andb_true_iff in H4
    as [[[Hb0%in_range_bounds Hb1%in_range_bounds]%andb_true_iff
           Hb2%in_range_bounds]%andb_true_iff Hb3%in_range_bounds].
  cbv zeta.
  set (cp := ((code b0 - 240) * 262144 + (code b1 - 128) * 4096
              + (code b2 - 128) * 64 + (code b3 - 128))%N).
  assert (cp < 1310720)%N as Hcp by (subst cp; lia).
  constructor; [|constructor; [|apply IH; lia]].
  - assert ((cp - 65536) / 1024 < 2048)%N; [|lia].
    apply N.Div0.div_lt_upper_bound. lia.
  - assert (1024 <> 0)%N as Hnz by lia.
    pose proof (N.mod_lt (cp - 65536) 1024 Hnz). lia.
Qed.

Lemma compare_base_256 (qu ru qv rv : N) :
  (ru < 256)%N -> (rv < 256)%N ->
  match (qu ?= qv)%N with
  | Eq => (ru ?= rv)%N
  | c => c
  end = (256 * qu + ru ?= 256 * qv + rv)%N.
Proof.
  intros Hru Hrv.
  destruct (N.compare_spec qu qv) as [Heq|Hlt|Hgt].
  - destruct (N.compare_spec ru rv);
      symmetry; [apply N.compare_eq_iff|apply N.compare_lt_iff|apply N.compare_gt_iff]; lia.
  - symmetry. apply N.compare_lt_iff. lia.
  - symmetry. apply N.compare_gt_iff. lia.
Qed.

Lemma compare_two_bytes (u v : N) :
  (u < 65536)%N -> (v < 65536)%N ->
  match Ascii.compare (ascii_of_N (u / 256)) (ascii_of_N (v / 256)) with
  | Eq => Ascii.compare (ascii_of_N (u mod 256)) (ascii_of_N (v mod 256))
  | c => c
  end = (u ?= v)%N.
Proof.
  intros Hu Hv. unfold Ascii.compare.
  assert (256 <> 0)%N as Hnz by lia.
  assert (u / 256 < 256)%N as Hu1 by (apply N.Div0.div_lt_upper_bound; lia).
  assert (v / 256 < 256)%N as Hv1 by (apply N.Div0.div_lt_upper_bound; lia).
  pose proof (N.mod_lt u 256 Hnz) as Hu0. pose proof (N.mod_lt v 256 Hnz) as Hv0.
  rewrite !N_ascii_embedding by assumption.
  rewrite (N.div_mod u 256 Hnz) at 3. rewrite (N.div_mod v 256 Hnz) at 3.
  now apply compare_base_256.
Qed.

Lemma units_key_compare (us : list N) :
  forall (vs : list N) (s t : string),
    Forall (fun u => (u < 65536)%N) us ->
    Forall (fun u => (u < 65536)%N) vs ->
    String.compare (units_key us s) (units_key vs t) =
    match units_compare us vs with
    | Eq => String.compare s t
    | c => c
    end.
Proof.
  induction us as [|u us IH]; intros [|v vs] s t Hus Hvs; try reflexivity.
  apply Forall_cons in Hus as [Hu Hus]. apply Forall_cons in Hvs as [Hv Hvs].
  cbn [units_key units_compare String.compare].
  change (Ascii.compare "001" "001") with Eq. cbv iota.
  rewrite <- (compare_two_bytes u v Hu Hv).
  destruct (Ascii.compare (ascii_of_N (u / 256)) (ascii_of_N (v / 256))); try reflexivity.
  destruct (Ascii.compare (ascii_of_N (u mod 256)) (ascii_of_N (v mod 256))); try reflexivity.
  now apply IH.
Qed.

(** [js_le] is byte order on the keys. *)
Lemma js_le_sort_key (s t : string) : js_le s t <-> String.le (sort_key s) (sort_key t).
Proof.
  unfold js_le, String.le, String.leb, sort_key.
  rewrite units_key_compare by (eapply code_units_bounded; reflexivity).
  destruct (units_compare (code_units s) (code_units t)); cbn; tauto.
Qed.

Global Instance js_le_total : Total js_le.
Proof. intros s t. rewrite !js_le_sort_key. apply (total String.le). Qed.

Global Instance js_le_trans : Transitive js_le.
Proof. intros s t u. rewrite !js_le_sort_key. apply transitivity. Qed.

Global Instance js_le_antisymm : AntiSymm (=) js_le.
Proof.
  intros s t Hst%js_le_sort_key Hts%js_le_sort_key.
  apply sort_key_inj. now apply (anti_symm String.le).
Qed.

(** A character above U+FFFF sorts before U+E000: its first code unit
    is a surrogate. *)
Example sort_code_units :
  let u10000 := string_of_codes [240; 144; 128; 128]%N in
  let uE000 := string_of_codes [238; 128; 128]%N in
  code_units u10000 = [55296; 56320]%N /\
  code_units uE000 = [57344]%N /\
  sort [uE000; u10000; "b"; "a"; "ab"; EmptyString]
    = [EmptyString; "a"; "ab"; "b"; u10000; uE000].
Proof. vm_compute. repeat split. Qed.

Example isUtf8_examples :
  map (fun l => utf8_valid (string_of_codes l))
      [ [97; 98; 99]; [255]; [195; 169]; [195]; [192; 128]; [224; 160; 128];
        [237; 160; 128]; [240; 144; 128; 128]; [244; 144; 128; 128]; [239; 191; 189] ]%N
  = [true; false; true; false; false; true; false; true; false; true].
Proof. vm_compute. reflexivity. Qed.

(** ** Well-formed UTF-8 *)

Lemma utf8_valid_app (n : nat) :
  forall s t, String.length s <= n -> utf8_valid s = true ->
              utf8_valid (s +:+ t) = utf8_valid t.
Proof.
  induction n as [|n IH]; intros s t Hn Hs.
  { destruct s; [reflexivity|cbn in Hn; lia]. }
  destruct s as [|b0 s1]; [reflexivity|]. cbn [String.length] in Hn.
  rewrite append_cons. cbn [utf8_valid] in Hs |- *.
  destruct (code b0 <? 128)%N; [apply IH; [lia|exact Hs]|].
  destruct s1 as [|b1 s2]; [discriminate|]. cbn [String.length] in Hn.
  rewrite append_cons.
  destruct (in_range 194 223 b0).
  { apply andb_true_iff in Hs as [-> Hs]. cbn [andb]. apply IH; [lia|exact Hs]. }
  destruct s2 as [|b2 s3]; [discriminate|]. cbn [String.length] in Hn.
  rewrite append_cons.
  destruct (in_range 224 239 b0).
  { apply andb_true_iff in Hs as [-> Hs]. cbn [andb]. apply IH; [lia|exact Hs]. }
  destruct s3 as [|b3 s4]; [discriminate|]. cbn [String.length] in Hn.
  rewrite append_cons.
  apply andb_true_iff in Hs as [-> Hs]. cbn [andb]. apply IH; [lia|exact Hs].
Qed.

Lemma utf8_valid_append (s t : string) :
  utf8_valid s = true -> utf8_valid t = true -> utf8_valid (s +:+ t) = true.
Proof. intros Hs Ht. now rewrite (utf8_valid_app (String.length s)). Qed.

Lemma quote_char_valid (c : ascii) :
  (code c <? 128)%N = true -> utf8_valid (quote_char c) = true.
Proof. destruct c as [[] [] [] [] [] [] [] []]; intros H; try discriminate H; reflexivity. Qed.

Lemma quote_char_high (c : ascii) :
  (code c <? 128)%N = false -> quote_char c = String c EmptyString.
Proof. destruct c as [[] [] [] [] [] [] [] []]; intros H; try discriminate H; reflexivity. Qed.

Lemma in_range_high (lo hi : N) (c : ascii) :
  (128 <= lo)%N -> in_range lo hi c = true -> (code c <? 128)%N = false.
Proof. intros Hlo [H _]%in_range_bounds. apply N.ltb_ge. lia. Qed.

Lemma second_byte_high (a b : bool) (lo1 hi1 lo2 hi2 : N) (c : ascii) :
  (128 <= lo1)%N -> (128 <= lo2)%N ->
  (if a then in_range lo1 hi1 c else if b then in_range lo2 hi2 c else is_cont c) = true ->
  (code c <? 128)%N = false.
Proof.
  intros H1 H2. destruct a; [|destruct b]; apply in_range_high; lia.
Qed.

Lemma utf8_valid_quote_chars (n : nat) :
  forall s, String.length s <= n -> utf8_valid s = true ->
            utf8_valid (quote_chars s) = true.
Proof.
  induction n as [|n IH]; intros s Hn Hs.
  { destruct s; [reflexivity|cbn in Hn; lia]. }
  destruct s as [|b0 s1]; [reflexivity|]. cbn [String.length] in Hn.
  cbn [quote_chars]. cbn [utf8_valid] in Hs.
  destruct (code b0 <? 128)%N eqn:H0.
  { apply utf8_valid_append; [now apply quote_char_valid|apply IH; [lia|exact Hs]]. }
  rewrite (quote_char_high b0 H0), append_cons, append_empty_l.
  destruct s1 as [|b1 s2]; [discriminate|]. cbn [String.length] in Hn.
  cbn [quote_chars].
  destruct (in_range 194 223 b0) eqn:Hr2.
  { apply andb_true_iff in Hs as [Hb1 Hs].
    rewrite (quote_char_high b1) by (eapply in_range_high; [|exact Hb1]; lia).
    rewrite append_cons, append_empty_l. cbn [utf8_valid].
    rewrite H0, Hr2, Hb1. apply IH; [lia|exact Hs]. }
  destruct s2 as [|b2 s3]; [discriminate|]. cbn [String.length] in Hn.
  cbn [quote_chars].
  destruct (in_range 224 239 b0) eqn:Hr3.
  { apply andb_true_iff in Hs as [[Hb1 Hb2]%andb_true_iff Hs].
    rewrite (quote_char_high b1) by (eapply second_byte_high; [| |exact Hb1]; lia).
    rewrite (quote_char_high b2) by (eapply in_range_high; [|exact Hb2]; lia).
    rewrite !append_cons, !append_empty_l. cbn [utf8_valid].
    rewrite H0, Hr2, Hr3, Hb1, Hb2. apply IH; [lia|exact Hs]. }
  destruct s3 as [|b3 s4]; [discriminate|]. cbn [String.length] in Hn.
  cbn [quote_chars].
  apply andb_true_iff in Hs
    as [[[[Hb0 Hb1]%andb_true_iff Hb2]%andb_true_iff Hb3]%andb_true_iff Hs].
  rewrite (quote_char_high b1) by (eapply second_byte_high; [| |exact Hb1]; lia).
  rewrite (quote_char_high b2) by (eapply in_range_high; [|exact Hb2]; lia).
  rewrite (quote_char_high b3) by (eapply in_range_high; [|exact Hb3]; lia).
  rewrite !append_cons, !append_empty_l. cbn [utf8_valid].
  rewrite H0, Hr2, Hr3, Hb0, Hb1, Hb2, Hb3. apply IH; [lia|exact Hs].
Qed.

Lemma QuoteJSONString_valid (s : string) :
  utf8_valid s = true -> utf8_valid (QuoteJSONString s) = true.
Proof.
  intros Hs. unfold QuoteJSONString. cbn [utf8_valid].
  change (code dquote <? 128)%N with true. cbv iota.
  apply utf8_valid_append; [|reflexivity].
  now apply (utf8_valid_quote_chars (String.length s)).
Qed.

Lemma member_valid (k v : string) :
  utf8_valid k = true -> utf8_valid v = true -> utf8_valid (member k v) = true.
Proof.
  intros Hk Hv. unfold member.
  apply utf8_valid_append; [now apply QuoteJSONString_valid|].
  apply utf8_valid_append; [reflexivity|now apply QuoteJSONString_valid].
Qed.

Lemma join_valid (sep : string) (parts : list string) :
  utf8_valid sep = true -> Forall (fun p => utf8_valid p = true) parts ->
  utf8_valid (join sep parts) = true.
Proof.
  intros Hsep. induction 1 as [|p parts Hp Hparts IH]; [reflexivity|].
  cbn [join]. destruct parts as [|q parts]; [exact Hp|].
  apply utf8_valid_append; [exact Hp|]. apply utf8_valid_append; [exact Hsep|exact IH].
Qed.

Lemma Get_valid (obj : record) (k v : string) :
  record_valid obj = true -> Get obj k = Some v -> utf8_valid k = true /\ utf8_valid v = true.
Proof.
  induction obj as [|[k' v'] obj IH]; [discriminate|].
  cbn [record_valid forallb Get fst snd].
  intros [[Hk Hv]%andb_true_iff Hobj]%andb_true_iff.
  destruct (String.eqb_spec k' k) as [->|_]; [intros [= <-]; now split|].
  now apply IH.
Qed.

Lemma members_valid (obj : record) (keys : list string) :
  record_valid obj = true -> Forall (fun p => utf8_valid p = true) (members obj keys).
Proof.
  intros Hobj. induction keys as [|k keys IH]; [constructor|].
  cbn [members]. destruct (Get obj k) as [v|] eqn:Hget; [|exact IH].
  constructor; [|exact IH].
  destruct (Get_valid obj k v Hobj Hget). now apply member_valid.
Qed.

(** What [encode] writes for a record of well-formed strings is
    well-formed: [toString] reads it back as it is. *)
Lemma isUtf8_encode (obj : record) : record_valid obj = true -> isUtf8 (encode obj) = true.
Proof.
  intros Hobj. unfold isUtf8, encode, Buffer_toString, Buffer_from.
  rewrite string_of_list_byte_of_string. unfold JSON_stringify.
  apply utf8_valid_append; [reflexivity|].
  apply utf8_valid_append; [|reflexivity].
  apply join_valid; [reflexivity|now apply members_valid].
Qed.

(** ** Records and key order *)

Lemma Get_None (r : record) (k : string) : Get r k = None <-> k ∉ Object_keys r.
Proof.
  induction r as [|[k' v'] r IH]; cbn [Get Object_keys map fst].
  - split; [intros _; apply not_elem_of_nil|reflexivity].
  - rewrite not_elem_of_cons. destruct (String.eqb_spec k' k) as [->|Hne].
    + split; [discriminate|intros [? _]; congruence].
    + rewrite IH. unfold Object_keys. intuition congruence.
Qed.

Lemma Get_Some (r : record) (k v : string) :
  NoDup (Object_keys r) -> Get r k = Some v <-> (k, v) ∈ r.
Proof.
  induction r as [|[k' v'] r IH]; cbn [Get Object_keys map fst]; intros Hnd.
  - split; [discriminate|intros H; inversion H].
  - apply NoDup_cons in Hnd as [Hk' Hnd]. rewrite elem_of_cons.
    destruct (String.eqb_spec k' k) as [->|Hne].
    + split; [intros [= ->]; now left|].
      intros [[= ->]|Hin]; [reflexivity|].
      exfalso. apply Hk'. apply (list_elem_of_fmap_2 fst) in Hin. exact Hin.
    + rewrite (IH Hnd). split; [now right|]. intros [[= ? ?]|Hin]; [congruence|exact Hin].
Qed.

Lemma Get_Permutation (r1 r2 : record) (k : string) :
  NoDup (Object_keys r1) -> r1 ≡ₚ r2 -> Get r1 k = Get r2 k.
Proof.
  intros Hnd Hperm.
  assert (NoDup (Object_keys r2)) as Hnd2.
  { unfold Object_keys in *. now rewrite <- Hperm. }
  destruct (Get r1 k) as [v|] eqn:H1.
  - symmetry. apply Get_Some; [exact Hnd2|]. rewrite <- Hperm. now apply Get_Some.
  - symmetry. apply Get_None. unfold Object_keys. rewrite <- Hperm. now apply Get_None.
Qed.

Lemma fields_in_ext (r1 r2 : record) (keys : list string) :
  (forall k, k ∈ keys -> Get r1 k = Get r2 k) -> fields_in r1 keys = fields_in r2 keys.
Proof.
  induction keys as [|k keys IH]; intros Hget; [reflexivity|].
  cbn [fields_in]. rewrite (Hget k) by left.
  rewrite IH; [reflexivity|]. intros k' Hk'. apply Hget. now right.
Qed.

Lemma fields_in_keys (r : record) (keys : list string) :
  (forall k, k ∈ keys -> k ∈ Object_keys r) -> map fst (fields_in r keys) = keys.
Proof.
  induction keys as [|k keys IH]; intros Hin; [reflexivity|].
  cbn [fields_in]. destruct (Get r k) as [v|] eqn:Hk.
  - cbn [map fst]. rewrite IH; [reflexivity|]. intros k' Hk'. apply Hin. now right.
  - apply Get_None in Hk. exfalso. apply Hk, Hin. left.
Qed.

Lemma fields_in_self (r : record) : NoDup (Object_keys r) -> fields_in r (Object_keys r) = r.
Proof.
  induction r as [|[k v] r IH]; intros Hnd; [reflexivity|].
  cbn [Object_keys map fst] in *. apply NoDup_cons in Hnd as [Hk Hnd].
  cbn [fields_in Get]. rewrite String.eqb_refl. f_equal.
  transitivity (fields_in r (map fst r)); [|exact (IH Hnd)].
  apply fields_in_ext. intros k' Hk'.
  cbn [Get]. destruct (String.eqb_spec k k') as [->|_]; [contradiction|reflexivity].
Qed.

Lemma fields_in_Permutation (r : record) (keys keys' : list string) :
  keys ≡ₚ keys' -> fields_in r keys ≡ₚ fields_in r keys'.
Proof.
  induction 1 as [|k l l' _ IH|k1 k2 l|l l' l'' _ IH1 _ IH2]; cbn [fields_in].
  - reflexivity.
  - destruct (Get r k); [now constructor|exact IH].
  - destruct (Get r k1), (Get r k2); try reflexivity. apply perm_swap.
  - now transitivity (fields_in r l').
Qed.

Lemma sort_Permutation_eq (l1 l2 : list string) : l1 ≡ₚ l2 -> sort l1 = sort l2.
Proof.
  intros Hperm. unfold sort.
  apply (Sorted_unique js_le); [apply Sorted_merge_sort; apply _..|].
  now rewrite !merge_sort_Permutation.
Qed.

Lemma sort_sorted (l : list string) : Sorted js_le l -> sort l = l.
Proof.
  intros Hs. unfold sort.
  apply (Sorted_unique js_le); [apply Sorted_merge_sort; apply _|exact Hs|].
  apply merge_sort_Permutation.
Qed.

Lemma sort_elem_of (l : list string) (k : string) : k ∈ sort l <-> k ∈ l.
Proof. unfold sort. now rewrite merge_sort_Permutation. Qed.

Lemma canonical_keys (r : record) : Object_keys (canonical r) = sort (Object_keys r).
Proof.
  unfold canonical, Object_keys at 1. apply fields_in_keys.
  intros k. apply sort_elem_of.
Qed.

Lemma canonical_Permutation (r : record) : NoDup (Object_keys r) -> canonical r ≡ₚ r.
Proof.
  intros Hnd. unfold canonical.
  rewrite (fields_in_Permutation r _ (Object_keys r)).
  - now rewrite fields_in_self.
  - apply merge_sort_Permutation.
Qed.

Lemma canonical_NoDup (r : record) : NoDup (Object_keys r) -> NoDup (Object_keys (canonical r)).
Proof.
  intros Hnd. rewrite canonical_keys. unfold sort.
  now rewrite merge_sort_Permutation.
Qed.

(** Two orders of the same properties are encoded alike. *)
Lemma encode_Permutation (r1 r2 : record) :
  NoDup (Object_keys r1) -> r1 ≡ₚ r2 -> encode r1 = encode r2.
Proof.
  intros Hnd Hperm. unfold encode, JSON_stringify.
  assert (sort (Object_keys r1) = sort (Object_keys r2)) as <-.
  { apply sort_Permutation_eq. unfold Object_keys. now rewrite Hperm. }
  rewrite !members_fields.
  rewrite (fields_in_ext r1 r2); [reflexivity|].
  intros k _. now apply Get_Permutation.
Qed.

(** What [decode] reads back from [encode]. *)
Lemma decode_encode (r : record) :
  NoDup (Object_keys r) ->
  decode (Some (encode r)) = inr (json_of_record (canonical r)).
Proof.
  intros Hnd. unfold decode, encode, Buffer_toString, Buffer_from.
  rewrite string_of_list_byte_of_string.
  apply JSON_parse_stringify. now apply canonical_NoDup.
Qed.

Lemma encode_has_data (r : record) : has_data (Some (encode r)) = true.
Proof. reflexivity. Qed.

Lemma encode_no_data (r : record) : no_data (Some (encode r)) = false.
Proof. reflexivity. Qed.

Lemma decode_asset_record (name owner : string) :
  decode (Some (encode [("name", name); ("owner", owner)])) =
  inr (JObject [("name", JString name); ("owner", JString owner)]).
Proof.
  rewrite decode_encode; [reflexivity|].
  cbn. repeat constructor; rewrite ?elem_of_cons, ?elem_of_nil; intuition discriminate.
Qed.

Lemma decode_offer_record (asset owner : string) :
  decode (Some (encode [("asset", asset); ("owner", owner)])) =
  inr (JObject [("asset", JString asset); ("owner", JString owner)]).
Proof.
  rewrite decode_encode; [reflexivity|].
  cbn. repeat constructor; rewrite ?elem_of_cons, ?elem_of_nil; intuition discriminate.
Qed.

(** ** Addresses *)

Ltac kinds_differ :=
  let H := fresh in
  intros H;
  unfold getAssetAddress, getTransferAddress, getTransferAcknAddress,
    getTransferApproveAddress, getRegulatorAddress, getParticipantAddress in H;
  apply (inj (String.append PREFIX)) in H;
  cbv [String.append] in H; discriminate H.

Lemma transfer_ne_ackn (a b : string) : getTransferAddress a <> getTransferAcknAddress b.
Proof. kinds_differ. Qed.

Lemma regulator_ne_ackn (a b : string) : getRegulatorAddress a <> getTransferAcknAddress b.
Proof. kinds_differ. Qed.

Lemma asset_ne_transfer (a b : string) : getAssetAddress a <> getTransferAddress b.
Proof. kinds_differ. Qed.

Lemma ackn_ne_transfer (a b : string) : getTransferAcknAddress a <> getTransferAddress b.
Proof. kinds_differ. Qed.

Lemma approve_ne_transfer (a b : string) : getTransferApproveAddress a <> getTransferAddress b.
Proof. kinds_differ. Qed.

Lemma approve_ne_ackn (a b : string) : getTransferApproveAddress a <> getTransferAcknAddress b.
Proof. kinds_differ. Qed.

(** ** Reading the state *)

Lemma requested_lookup (addresses : list string) (st : gmap string Buffer) (a : string) :
  requested addresses st !! a = if decide (a ∈ addresses) then st !! a else None.
Proof.
  unfold requested. rewrite map_lookup_filter.
  destruct (st !! a) as [b|]; cbn; [|now destruct (decide _)].
  destruct (decide (a ∈ addresses)) as [Hin|Hout].
  - now rewrite option_guard_True.
  - now rewrite option_guard_False.
Qed.

Lemma requested_same (st : gmap string Buffer) (a : string) :
  requested [a] st !! a = st !! a.
Proof. rewrite requested_lookup. rewrite decide_True; [reflexivity|left]. Qed.

Lemma requested_other (st : gmap string Buffer) (a b : string) :
  b <> a -> requested [a] st !! b = None.
Proof.
  intros Hne. rewrite requested_lookup. rewrite decide_False; [reflexivity|].
  rewrite list_elem_of_singleton. exact Hne.
Qed.

(** ** The rules, step by step *)

(** What a rule does from any view: its checks in order, then its
    single [state.set]. *)

Lemma createAsset_eq (asset owner : string) (w : View) :
  createAsset asset owner w =
  if has_data (ledger w !! getAssetAddress asset)
  then (w, inl (InvalidTransaction "Asset name in use"))
  else state_set
         (<[getAssetAddress asset := encode [("name", asset); ("owner", owner)]]> ∅) w.
Proof.
  unfold createAsset, then_, state_get, throw. cbv zeta.
  rewrite requested_same. now destruct (has_data _).
Qed.

(** The check of the owner that [transferAsset], [acknowledgeTransfer]
    and [rejectTransfer] make on a decoded entry. *)
Lemma owner_check_eq (entry : option Buffer) (signer message : string)
    (k : Promise (gset string)) (w : View) :
  (do record <- eval (decode entry);
   do recordOwner <- eval (owner_of record);
   if strict_ne signer recordOwner then throw (InvalidTransaction message) else k) w =
  match decode entry with
  | inl e => (w, inl e)
  | inr record =>
      match owner_of record with
      | inl e => (w, inl e)
      | inr recordOwner =>
          if strict_ne signer recordOwner
          then (w, inl (InvalidTransaction message))
          else k w
      end
  end.
Proof.
  unfold then_, eval, throw.
  destruct (decode entry) as [e|record]; [reflexivity|].
  destruct (owner_of record) as [e|recordOwner]; [reflexivity|].
  now destruct (strict_ne signer recordOwner).
Qed.

Lemma transferAsset_eq (asset owner signer : string) (w : View) :
  transferAsset asset owner signer w =
  let entry := ledger w !! getAssetAddress asset in
  if no_data entry then (w, inl (InvalidTransaction "Asset does not exist"))
  else
    match decode entry with
    | inl e => (w, inl e)
    | inr record =>
        match owner_of record with
        | inl e => (w, inl e)
        | inr recordOwner =>
            if strict_ne signer recordOwner
            then (w, inl (InvalidTransaction "Only an Asset's owner may transfer it"))
            else state_set
                   (<[getTransferAcknAddress asset :=
                        encode [("asset", asset); ("owner", owner)]]> ∅) w
        end
    end.
Proof.
  unfold transferAsset. cbv zeta. unfold then_ at 1, state_get.
  rewrite requested_same. destruct (no_data _); [reflexivity|].
  apply owner_check_eq.
Qed.

Lemma acknowledgeTransfer_eq (asset signer : string) (w : View) :
  acknowledgeTransfer asset signer w =
  let entry := ledger w !! getTransferAcknAddress asset in
  if no_data entry then (w, inl (InvalidTransaction "Asset is not being transfered"))
  else
    match decode entry with
    | inl e => (w, inl e)
    | inr record =>
        match owner_of record with
        | inl e => (w, inl e)
        | inr recordOwner =>
            if strict_ne signer recordOwner
            then (w, inl (InvalidTransaction
                            "Transfers can only be acknowledged by the new buyer"))
            else state_set
                   (<[getTransferApproveAddress asset :=
                        encode [("name", asset); ("owner", signer)]]>
                      (<[getTransferAcknAddress asset := Buffer0]> ∅)) w
        end
    end.
Proof.
  unfold acknowledgeTransfer. cbv zeta. unfold then_ at 1, state_get.
  rewrite requested_same. destruct (no_data _); [reflexivity|].
  apply owner_check_eq.
Qed.

(** The mapping that [acceptTransfer] receives holds the acknowledgment
    address only: neither of the two entries it looks up is in it. *)
Lemma acceptTransfer_entries (asset signer : string) (st : gmap string Buffer) :
  requested [getTransferAcknAddress asset] st !! getTransferAddress asset = None /\
  requested [getTransferAcknAddress asset] st !! getRegulatorAddress signer = None.
Proof.
  split; apply requested_other; [apply transfer_ne_ackn|apply regulator_ne_ackn].
Qed.

Lemma acceptTransfer_eq (asset signer : string) (w : View) :
  acceptTransfer asset signer w =
  (w, inl (InvalidTransaction "Asset is not being transfered")).
Proof.
  unfold acceptTransfer, then_, state_get, throw. cbv zeta.
  destruct (acceptTransfer_entries asset signer (ledger w)) as [-> _].
  reflexivity.
Qed.

Lemma rejectTransfer_eq (asset signer : string) (w : View) :
  rejectTransfer asset signer w =
  let entry := ledger w !! getTransferAddress asset in
  match decode entry with
  | inl e => (w, inl e)
  | inr record =>
      match owner_of record with
      | inl e => (w, inl e)
      | inr recordOwner =>
          if strict_ne signer recordOwner
          then (w, inl (InvalidTransaction
                          "Transfers can only be rejected by the potential new owner"))
          else state_set (<[getTransferAddress asset := Buffer0]> ∅) w
      end
  end.
Proof.
  unfold rejectTransfer. cbv zeta. unfold then_ at 1, state_get.
  rewrite requested_same. apply owner_check_eq.
Qed.

(** [state.set] resolves. *)
Lemma state_set_resolves (entries : gmap string Buffer) (w w' : View) (e : error) :
  state_set entries w <> (w', inl e).
Proof. unfold state_set. congruence. Qed.

(** A rule that rejects has set nothing. *)
Ltac rejects_unchanged :=
  repeat match goal with
    | |- context [if ?b then _ else _] => destruct b
    | |- context [match ?x with inl _ => _ | inr _ => _ end] => destruct x
    end;
  intros Hrun;
  solve [ now inversion Hrun | now apply state_set_resolves in Hrun ].

Lemma createAsset_rejects (asset owner : string) (w w' : View) (e : error) :
  createAsset asset owner w = (w', inl e) -> w' = w.
Proof. rewrite createAsset_eq. rejects_unchanged. Qed.

Lemma transferAsset_rejects (asset owner signer : string) (w w' : View) (e : error) :
  transferAsset asset owner signer w = (w', inl e) -> w' = w.
Proof. rewrite transferAsset_eq. cbv zeta. rejects_unchanged. Qed.

Lemma acknowledgeTransfer_rejects (asset signer : string) (w w' : View) (e : error) :
  acknowledgeTransfer asset signer w = (w', inl e) -> w' = w.
Proof. rewrite acknowledgeTransfer_eq. cbv zeta. rejects_unchanged. Qed.

Lemma acceptTransfer_rejects (asset signer : string) (w w' : View) (e : error) :
  acceptTransfer asset signer w = (w', inl e) -> w' = w.
Proof. rewrite acceptTransfer_eq. rejects_unchanged. Qed.

Lemma rejectTransfer_rejects (asset signer : string) (w w' : View) (e : error) :
  rejectTransfer asset signer w = (w', inl e) -> w' = w.
Proof. rewrite rejectTransfer_eq. cbv zeta. rejects_unchanged. Qed.

Lemma apply_rejects (txn : Transaction) (w w' : View) (e : error) :
  apply txn w = (w', inl e) -> w' = w.
Proof.
  unfold apply. cbv zeta.
  repeat match goal with |- context [if String.eqb ?a ?b then _ else _] =>
    destruct (String.eqb a b) end.
  - apply createAsset_rejects.
  - apply transferAsset_rejects.
  - apply acknowledgeTransfer_rejects.
  - apply acceptTransfer_rejects.
  - apply rejectTransfer_rejects.
  - unfold then_, resolve, throw. intros Hrun. now inversion Hrun.
Qed.

(** ** No rule writes a transfer address *)

Lemma lookup_written_1 (a b : string) (v : Buffer) (st : gmap string Buffer) :
  a <> b -> (<[a := v]> ∅ ∪ st) !! b = st !! b.
Proof.
  intros Hne. apply lookup_union_r. rewrite lookup_insert_ne by exact Hne.
  apply lookup_empty.
Qed.

Lemma lookup_written_2 (a1 a2 b : string) (v1 v2 : Buffer) (st : gmap string Buffer) :
  a1 <> b -> a2 <> b -> (<[a1 := v1]> (<[a2 := v2]> ∅) ∪ st) !! b = st !! b.
Proof.
  intros Hne1 Hne2. apply lookup_union_r.
  rewrite !lookup_insert_ne by assumption. apply lookup_empty.
Qed.

Lemma rejectTransfer_no_entry (asset signer : string) (w : View) :
  no_transfer_entry (ledger w) -> rejectTransfer asset signer w = (w, inl TypeError).
Proof. intros Hno. rewrite rejectTransfer_eq. cbv zeta. now rewrite Hno. Qed.

Lemma apply_keeps_no_transfer_entry (txn : Transaction) (st : gmap string Buffer)
    (w : View) (r : gset string) :
  no_transfer_entry st ->
  run (apply txn) st = (w, inr r) ->
  no_transfer_entry (ledger w).
Proof.
  intros Hno. unfold run, apply. cbv zeta.
  repeat match goal with |- context [if String.eqb ?a ?b then _ else _] =>
    destruct (String.eqb a b) end.
  - rewrite createAsset_eq. cbn [ledger].
    destruct (has_data _); [discriminate|].
    unfold state_set. intros [= <- _] b. cbn [ledger].
    rewrite lookup_written_1 by apply asset_ne_transfer. apply Hno.
  - rewrite transferAsset_eq. cbv zeta. cbn [ledger].
    destruct (no_data _); [discriminate|].
    destruct (decode _) as [?|record]; [discriminate|].
    destruct (owner_of record) as [?|o]; [discriminate|].
    destruct (strict_ne _ o); [discriminate|].
    unfold state_set. intros [= <- _] b. cbn [ledger].
    rewrite lookup_written_1 by apply ackn_ne_transfer. apply Hno.
  - rewrite acknowledgeTransfer_eq. cbv zeta. cbn [ledger].
    destruct (no_data _); [discriminate|].
    destruct (decode _) as [?|record]; [discriminate|].
    destruct (owner_of record) as [?|o]; [discriminate|].
    destruct (strict_ne _ o); [discriminate|].
    unfold state_set. intros [= <- _] b. cbn [ledger].
    rewrite lookup_written_2 by (apply approve_ne_transfer || apply ackn_ne_transfer).
    apply Hno.
  - rewrite acceptTransfer_eq. discriminate.
  - rewrite rejectTransfer_no_entry by exact Hno. discriminate.
  - unfold then_, resolve, throw. discriminate.
Qed.

Lemma reachable_no_transfer_entry (st : gmap string Buffer) :
  reachable st -> no_transfer_entry st.
Proof.
  induction 1 as [|st txn _ IH].
  - intros b. apply lookup_empty.
  - unfold commit. destruct (run (apply txn) st) as [w [e|r]] eqn:Hrun; [exact IH|].
    eapply apply_keeps_no_transfer_entry; eassumption.
Qed.

(** * The rules against the specification *)

(** C8. For every prior state, asset and signer the accept rule never
    succeeds: it requests the acknowledgment address only, looks up the
    transfer address and the regulator address in the mapping it gets,
    finds neither, and throws "Asset is not being transfered" with nothing
    written. *)
Theorem acceptTransfer_never_succeeds
    (st : gmap string Buffer) (asset owner signer : string) :
  let entries := requested [getTransferAcknAddress asset] st in
  entries !! getTransferAddress asset = None /\
  entries !! getRegulatorAddress signer = None /\
  run (acceptTransfer asset signer) st =
    (mkView st ∅, inl (InvalidTransaction "Asset is not being transfered")) /\
  commit st (mkTransaction signer "accept" asset owner) = st.
Proof.
  cbv zeta. destruct (acceptTransfer_entries asset signer st) as [He Hr].
  repeat split; [exact He|exact Hr|apply acceptTransfer_eq|].
  unfold commit, run.
  change (apply (mkTransaction signer "accept" asset owner)) with (acceptTransfer asset signer).
  now rewrite acceptTransfer_eq.
Qed.

(** C10. Whenever one of the five rules, called directly or through
    [apply], rejects with any error, the ledger is the one it started from
    and the write-set is empty. *)
Theorem rules_atomic_on_error
    (st : gmap string Buffer) (txn : Transaction)
    (p : Promise (gset string)) (w : View) (e : error) :
  p = apply txn \/ p ∈ five_rules (asset txn) (owner txn) (signerPubkey txn) ->
  run p st = (w, inl e) ->
  ledger w = st /\ write_set w = ∅.
Proof.
  unfold run. intros Hp Hrun.
  assert (w = mkView st ∅) as ->; [|split; reflexivity].
  destruct Hp as [->|Hp]; [now apply apply_rejects in Hrun|].
  unfold five_rules in Hp. rewrite !elem_of_cons, elem_of_nil in Hp.
  destruct Hp as [->|[->|[->|[->|[->|[]]]]]].
  - now apply createAsset_rejects in Hrun.
  - now apply transferAsset_rejects in Hrun.
  - now apply acknowledgeTransfer_rejects in Hrun.
  - now apply acceptTransfer_rejects in Hrun.
  - now apply rejectTransfer_rejects in Hrun.
Qed.

Lemma rules_atomic_on_error_witness :
  ledger (run (apply (mkTransaction "bob" "create" "widget" EmptyString)) widget_created).1
    = widget_created /\
  write_set (run (apply (mkTransaction "bob" "create" "widget" EmptyString)) widget_created).1 = ∅.
Proof.
  apply (rules_atomic_on_error widget_created (mkTransaction "bob" "create" "widget" EmptyString)
           (apply (mkTransaction "bob" "create" "widget" EmptyString)) _
           (InvalidTransaction "Asset name in use")).
  - left. reflexivity.
  - vm_compute. reflexivity.
Defined.

(** C9. In every ledger reachable from the empty one, the transfer
    address (kind code 10) of any asset has no entry, so [rejectTransfer],
    which reads that address alone and decodes without a presence check,
    throws a [TypeError], not an [InvalidTransaction], and leaves the
    ledger, acknowledgment slot included, as it was. *)
Theorem rejectTransfer_never_finds_record
    (st : gmap string Buffer) (asset owner signer : string) :
  reachable st ->
  st !! getTransferAddress asset = None /\
  run (rejectTransfer asset signer) st = (mkView st ∅, inl TypeError) /\
  untyped TypeError = true /\
  commit st (mkTransaction signer "reject" asset owner) = st.
Proof.
  intros Hreach. pose proof (reachable_no_transfer_entry st Hreach) as Hno.
  assert (run (rejectTransfer asset signer) st = (mkView st ∅, inl TypeError)) as Hrun.
  { unfold run. now apply rejectTransfer_no_entry. }
  repeat split; [apply Hno|exact Hrun|].
  unfold commit. replace (run (apply (mkTransaction signer "reject" asset owner)) st)
    with (run (rejectTransfer asset signer) st) by reflexivity.
  now rewrite Hrun.
Qed.

Lemma rejectTransfer_never_finds_record_witness :
  widget_offered !! getTransferAddress "widget" = None /\
  run (rejectTransfer "widget" "bob") widget_offered = (mkView widget_offered ∅, inl TypeError) /\
  untyped TypeError = true /\
  commit widget_offered (mkTransaction "bob" "reject" "widget" "bob") = widget_offered.
Proof.
  apply (rejectTransfer_never_finds_record widget_offered "widget" "bob" "bob").
  unfold widget_offered, widget_created.
  apply reachable_commit, reachable_commit, reachable_empty.
Defined.

(** C4. When the acknowledgment slot of the asset holds a record whose
    owner is the signer, [acknowledgeTransfer] resolves; its write-set
    has exactly two entries: a zero-length value at the acknowledgment
    address, and at the approval address the encoding of
    {name: asset, owner: signer}. *)
Theorem acknowledgeTransfer_by_buyer
    (st : gmap string Buffer) (asset signer : string)
    (entry : Buffer) (fields : list (string * json)) :
  st !! getTransferAcknAddress asset = Some entry ->
  decode (Some entry) = inr (JObject fields) ->
  GetField fields "owner" = Some (JString signer) ->
  let writes :=
    <[getTransferApproveAddress asset := encode [("name", asset); ("owner", signer)]]>
      (<[getTransferAcknAddress asset := Buffer0]> ∅) in
  run (acknowledgeTransfer asset signer) st = (mkView (writes ∪ st) writes, inr (dom writes)) /\
  writes !! getTransferAcknAddress asset = Some Buffer0 /\
  length Buffer0 = 0 /\
  writes !! getTransferApproveAddress asset
    = Some (encode [("name", asset); ("owner", signer)]) /\
  decode (writes !! getTransferApproveAddress asset)
    = inr (json_of_record [("name", asset); ("owner", signer)]) /\
  (forall a, a <> getTransferAcknAddress asset -> a <> getTransferApproveAddress asset ->
             writes !! a = None).
Proof.
  intros Hentry Hdecode Howner. cbv zeta.
  assert (no_data (Some entry) = false) as Hdata.
  { destruct entry; [discriminate Hdecode|reflexivity]. }
  repeat split.
  - unfold run. rewrite acknowledgeTransfer_eq. cbv zeta. cbn [ledger].
    rewrite Hentry, Hdata, Hdecode. cbn [owner_of]. rewrite Howner.
    cbn [strict_ne]. rewrite String.eqb_refl. cbn [negb].
    unfold state_set. cbn [ledger write_set]. now rewrite (right_id_L ∅ (∪)).
  - rewrite lookup_insert_ne by apply approve_ne_ackn. apply lookup_insert_eq.
  - apply lookup_insert_eq.
  - rewrite lookup_insert_eq. apply decode_asset_record.
  - intros a Hackn Happrove. rewrite !lookup_insert_ne by congruence. apply lookup_empty.
Qed.

Lemma acknowledgeTransfer_by_buyer_witness :
  let writes :=
    <[getTransferApproveAddress "widget" := encode [("name", "widget"); ("owner", "bob")]]>
      (<[getTransferAcknAddress "widget" := Buffer0]> ∅) in
  run (acknowledgeTransfer "widget" "bob") widget_offered
    = (mkView (writes ∪ widget_offered) writes, inr (dom writes)) /\
  writes !! getTransferAcknAddress "widget" = Some Buffer0 /\
  length Buffer0 = 0 /\
  writes !! getTransferApproveAddress "widget"
    = Some (encode [("name", "widget"); ("owner", "bob")]) /\
  decode (writes !! getTransferApproveAddress "widget")
    = inr (json_of_record [("name", "widget"); ("owner", "bob")]) /\
  (forall a, a <> getTransferAcknAddress "widget" -> a <> getTransferApproveAddress "widget" ->
             writes !! a = None).
Proof.
  apply (acknowledgeTransfer_by_buyer widget_offered "widget" "bob"
           (encode [("asset", "widget"); ("owner", "bob")])
           [("asset", JString "widget"); ("owner", JString "bob")]).
  - vm_compute. reflexivity.
  - vm_compute. reflexivity.
  - reflexivity.
Defined.

(** C5. After [createAsset n A] has resolved, [createAsset n B] on the
    resulting ledger rejects with "Asset name in use", writes nothing,
    and the asset entry still decodes to a record whose owner is [A]. *)
Theorem createAsset_twice
    (st : gmap string Buffer) (n A B owner : string) (w : View) (r : gset string) :
  run (createAsset n A) st = (w, inr r) ->
  run (createAsset n B) (ledger w)
    = (mkView (ledger w) ∅, inl (InvalidTransaction "Asset name in use")) /\
  commit (ledger w) (mkTransaction B "create" n owner) = ledger w /\
  exists record,
    decode (ledger w !! getAssetAddress n) = inr record /\
    owner_of record = inr (Some (JString A)).
Proof.
  unfold run. rewrite createAsset_eq. cbn [ledger].
  destruct (has_data (st !! getAssetAddress n)); [discriminate|].
  unfold state_set. cbn [ledger write_set]. intros [= <- _]. cbn [ledger].
  assert ((<[getAssetAddress n := encode [("name", n); ("owner", A)]]> ∅ ∪ st)
            !! getAssetAddress n = Some (encode [("name", n); ("owner", A)])) as Hlook.
  { apply lookup_union_Some_l. apply lookup_insert_eq. }
  assert (createAsset n B (mkView (<[getAssetAddress n :=
              encode [("name", n); ("owner", A)]]> ∅ ∪ st) ∅)
          = (mkView (<[getAssetAddress n := encode [("name", n); ("owner", A)]]> ∅ ∪ st) ∅,
             inl (InvalidTransaction "Asset name in use"))) as Hsecond.
  { rewrite createAsset_eq. cbn [ledger]. now rewrite Hlook, encode_has_data. }
  split; [exact Hsecond|]. split.
  - unfold commit, run.
    change (apply (mkTransaction B "create" n owner)) with (createAsset n B).
    now rewrite Hsecond.
  - rewrite Hlook, decode_asset_record. eexists. split; reflexivity.
Qed.

Lemma createAsset_twice_witness :
  let writes : gmap string Buffer :=
    <[getAssetAddress "widget" := encode [("name", "widget"); ("owner", "alice")]]> ∅ in
  let w := mkView (writes ∪ ∅) (writes ∪ ∅) in
  run (createAsset "widget" "bob") (ledger w)
    = (mkView (ledger w) ∅, inl (InvalidTransaction "Asset name in use")) /\
  commit (ledger w) (mkTransaction "bob" "create" "widget" "bob") = ledger w /\
  exists record,
    decode (ledger w !! getAssetAddress "widget") = inr record /\
    owner_of record = inr (Some (JString "alice")).
Proof.
  intros writes w.
  apply (createAsset_twice ∅ "widget" "alice" "bob" "bob" w (dom writes)).
  reflexivity.
Defined.

(** C6. [transferAsset] rejects with "Asset does not exist" when the
    asset address has no data, and with "Only an Asset's owner may
    transfer it" when the asset entry, well-formed UTF-8, decodes to a
    record whose owner is not the signer; in both cases nothing is
    written.  (In an entry that is not well-formed UTF-8 [toString]
    replaces bytes by U+FFFD, which can turn another owner into the
    signer.) *)
Theorem transferAsset_rejections
    (st : gmap string Buffer) (asset newOwner signer : string) :
  (no_data (st !! getAssetAddress asset) = true ->
   run (transferAsset asset newOwner signer) st
     = (mkView st ∅, inl (InvalidTransaction "Asset does not exist"))) /\
  (forall (entry : Buffer) (fields : list (string * json)) (recordOwner : string),
     st !! getAssetAddress asset = Some entry ->
     isUtf8 entry = true ->
     decode (Some entry) = inr (JObject fields) ->
     GetField fields "owner" = Some (JString recordOwner) ->
     recordOwner <> signer ->
     run (transferAsset asset newOwner signer) st
       = (mkView st ∅, inl (InvalidTransaction "Only an Asset's owner may transfer it"))).
Proof.
  split.
  - intros Habsent. unfold run. rewrite transferAsset_eq. cbv zeta. cbn [ledger].
    now rewrite Habsent.
  - intros entry fields recordOwner Hentry _ Hdecode Howner Hne.
    assert (no_data (Some entry) = false) as Hdata.
    { destruct entry; [discriminate Hdecode|reflexivity]. }
    unfold run. rewrite transferAsset_eq. cbv zeta. cbn [ledger].
    rewrite Hentry, Hdata, Hdecode. cbn [owner_of]. rewrite Howner. cbn [strict_ne].
    destruct (String.eqb_spec signer recordOwner) as [->|_]; [congruence|reflexivity].
Qed.

Lemma transferAsset_rejections_witness :
  run (transferAsset "gadget" "bob" "alice") widget_created
    = (mkView widget_created ∅, inl (InvalidTransaction "Asset does not exist")) /\
  run (transferAsset "widget" "bob" "mallory") widget_created
    = (mkView widget_created ∅,
       inl (InvalidTransaction "Only an Asset's owner may transfer it")).
Proof.
  split.
  - apply (transferAsset_rejections widget_created "gadget" "bob" "alice").
    vm_compute. reflexivity.
  - apply (proj2 (transferAsset_rejections widget_created "widget" "bob" "mallory")
             (encode [("name", "widget"); ("owner", "alice")])
             [("name", JString "widget"); ("owner", JString "alice")] "alice").
    + vm_compute. reflexivity.
    + vm_compute. reflexivity.
    + vm_compute. reflexivity.
    + reflexivity.
    + discriminate.
Defined.

(** C3. For every record with string fields and no property twice,
    [decode (encode r)] is a record with the fields of [r] (the same
    properties with the same values, whatever their order), and encoding
    it again gives the bytes of [encode r]. *)
Theorem codec_round_trip (r : record) :
  NoDup (Object_keys r) ->
  exists r' : record,
    decode (Some (encode r)) = inr (json_of_record r') /\
    r' ≡ₚ r /\
    (forall k, Get r' k = Get r k) /\
    encode r' = encode r.
Proof.
  intros Hnd. exists (canonical r).
  pose proof (canonical_Permutation r Hnd) as Hperm.
  pose proof (canonical_NoDup r Hnd) as Hnd'.
  repeat split.
  - now apply decode_encode.
  - exact Hperm.
  - intros k. now apply Get_Permutation.
  - now apply encode_Permutation.
Qed.

Lemma codec_round_trip_witness :
  exists r' : record,
    decode (Some (encode [("owner", "alice"); ("name", "widget")])) = inr (json_of_record r') /\
    r' ≡ₚ [("owner", "alice"); ("name", "widget")] /\
    (forall k, Get r' k = Get [("owner", "alice"); ("name", "widget")] k) /\
    encode r' = encode [("owner", "alice"); ("name", "widget")].
Proof.
  apply (codec_round_trip [("owner", "alice"); ("name", "widget")]).
  apply (bool_decide_unpack _). vm_compute. exact I.
Defined.

(** C7. Two records with the same field-name/value pairs, in whatever
    order, have the same encoding.  The encoding is of the same fields
    ([canonical r1] is a permutation of [r1]) put in the order in which
    [sort] leaves the keys, the order of their UTF-16 code units: the
    bytes are the members of [canonical r1], comma-separated, between
    braces. *)
Theorem encode_order_independent (r1 r2 : record) :
  NoDup (Object_keys r1) ->
  NoDup (Object_keys r2) ->
  (forall k v, (k, v) ∈ r1 <-> (k, v) ∈ r2) ->
  encode r1 = encode r2 /\
  canonical r1 ≡ₚ r1 /\
  Sorted js_le (Object_keys (canonical r1)) /\
  Buffer_toString (encode r1) = "{" +:+ join "," (map member_of (canonical r1)) +:+ "}".
Proof.
  intros Hnd1 Hnd2 Hsame. split; [|split; [|split]].
  - apply encode_Permutation; [exact Hnd1|].
    apply NoDup_Permutation.
    + unfold Object_keys in Hnd1. eapply NoDup_fmap_1, Hnd1.
    + unfold Object_keys in Hnd2. eapply NoDup_fmap_1, Hnd2.
    + intros [k v]. apply Hsame.
  - now apply canonical_Permutation.
  - rewrite canonical_keys. unfold sort. apply Sorted_merge_sort; apply _.
  - unfold encode, Buffer_toString, Buffer_from.
    rewrite string_of_list_byte_of_string. unfold JSON_stringify.
    now rewrite members_fields.
Qed.

Lemma encode_order_independent_witness :
  encode [("owner", "alice"); ("name", "widget")]
    = encode [("name", "widget"); ("owner", "alice")] /\
  canonical [("owner", "alice"); ("name", "widget")]
    ≡ₚ [("owner", "alice"); ("name", "widget")] /\
  Sorted js_le (Object_keys (canonical [("owner", "alice"); ("name", "widget")])) /\
  Buffer_toString (encode [("owner", "alice"); ("name", "widget")])
    = "{" +:+ join "," (map member_of (canonical [("owner", "alice"); ("name", "widget")]))
      +:+ "}".
Proof.
  apply (encode_order_independent
           [("owner", "alice"); ("name", "widget")]
           [("name", "widget"); ("owner", "alice")]).
  - apply (bool_decide_unpack _). vm_compute. exact I.
  - apply (bool_decide_unpack _). vm_compute. exact I.
  - intros k v. rewrite !elem_of_cons, !elem_of_nil. tauto.
Defined.

(** ** Where the rules depart from the specification *)

(** The scenario up to the acknowledgment runs as specified: the
    acknowledgment slot is cleared and the approval slot names bob. *)
Example widget_acknowledged_slots :
  widget_acknowledged !! getTransferAcknAddress "widget" = Some Buffer0 /\
  decode (widget_acknowledged !! getTransferApproveAddress "widget")
    = inr (json_of_record [("name", "widget"); ("owner", "bob")]) /\
  decode (widget_acknowledged !! getAssetAddress "widget")
    = inr (json_of_record [("name", "widget"); ("owner", "alice")]).
Proof. vm_compute. repeat split. Qed.

(** With no data in any transfer slot of the asset, acknowledging and
    accepting reject with a validation error; rejecting decodes the
    missing entry and throws an error that is not a validation error. *)
Lemma rules_without_offer (st : gmap string Buffer) (asset signer : string) :
  no_data (st !! getTransferAddress asset) = true ->
  no_data (st !! getTransferAcknAddress asset) = true ->
  no_data (st !! getTransferApproveAddress asset) = true ->
  run (acknowledgeTransfer asset signer) st
    = (mkView st ∅, inl (InvalidTransaction "Asset is not being transfered")) /\
  run (acceptTransfer asset signer) st
    = (mkView st ∅, inl (InvalidTransaction "Asset is not being transfered")) /\
  exists e, untyped e = true /\ run (rejectTransfer asset signer) st = (mkView st ∅, inl e).
Proof.
  intros Htransfer Hackn _. unfold run. repeat split.
  - rewrite acknowledgeTransfer_eq. cbv zeta. cbn [ledger]. now rewrite Hackn.
  - apply acceptTransfer_eq.
  - rewrite rejectTransfer_eq. cbv zeta. cbn [ledger].
    destruct (st !! getTransferAddress asset) as [[|b entry]|].
    + exists SyntaxError. split; reflexivity.
    + discriminate Htransfer.
    + exists TypeError. split; reflexivity.
Qed.

(** C2, on the code.  On the empty ledger, acknowledging and accepting a
    transfer of "widget" reject with the validation error "Asset is not
    being transfered", but rejecting it throws a [TypeError]: the presence
    check of [rejectTransfer] is commented out, so the missing entry
    reaches [decode]. Nothing is written in any of the three. *)
Theorem rejectTransfer_without_offer_untyped :
  run (acknowledgeTransfer "widget" "bob") ∅
    = (mkView ∅ ∅, inl (InvalidTransaction "Asset is not being transfered")) /\
  run (acceptTransfer "widget" "bob") ∅
    = (mkView ∅ ∅, inl (InvalidTransaction "Asset is not being transfered")) /\
  run (rejectTransfer "widget" "bob") ∅ = (mkView ∅ ∅, inl TypeError) /\
  untyped TypeError = true.
Proof.
  unfold run. split; [|split; [|split]].
  - rewrite acknowledgeTransfer_eq. cbv zeta. cbn [ledger]. now rewrite lookup_empty.
  - apply acceptTransfer_eq.
  - apply rejectTransfer_no_entry. intros b. apply lookup_empty.
  - reflexivity.
Qed.

(** C1, on the code.  In the ledger of the end-to-end scenario, with the
    approval slot of "widget" holding {name: widget, owner: bob} and
    regulator1 registered, [acceptTransfer] rejects with "Asset is not
    being transfered": the owner of the asset stays alice and the approval
    slot stays filled. *)
Theorem acceptTransfer_rejects_pending_approval :
  decode (widget_pending !! getTransferApproveAddress "widget")
    = inr (json_of_record [("name", "widget"); ("owner", "bob")]) /\
  has_data (widget_pending !! getRegulatorAddress "regulator1") = true /\
  run (acceptTransfer "widget" "regulator1") widget_pending
    = (mkView widget_pending ∅, inl (InvalidTransaction "Asset is not being transfered")) /\
  commit widget_pending (mkTransaction "regulator1" "accept" "widget" EmptyString) = widget_pending /\
  decode (widget_pending !! getAssetAddress "widget")
    = inr (json_of_record [("name", "widget"); ("owner", "alice")]).
Proof.
  split; [|split; [|split; [|split]]].
  - vm_compute. reflexivity.
  - vm_compute. reflexivity.
  - apply acceptTransfer_eq.
  - unfold commit, run.
    change (apply (mkTransaction "regulator1" "accept" "widget" EmptyString))
      with (acceptTransfer "widget" "regulator1").
    now rewrite acceptTransfer_eq.
  - vm_compute. reflexivity.
Qed.

(** * More of the file *)

(** ** The shape of addresses *)

Lemma round_length (h : list Z) (kw : Z * Z) : length (SHA512.round h kw) = length h.
Proof.
  unfold SHA512.round.
  destruct h as [|a [|b [|c [|d [|e [|f [|g [|hh [|x h]]]]]]]]]; reflexivity.
Qed.

Lemma fold_round_length (kws : list (Z * Z)) (h : list Z) :
  length (fold_left SHA512.round kws h) = length h.
Proof.
  revert h. induction kws as [|kw kws IH]; intros h; [reflexivity|].
  cbn [fold_left]. now rewrite IH, round_length.
Qed.

Lemma compress_length (h block : list Z) : length (SHA512.compress h block) = length h.
Proof.
  unfold SHA512.compress. rewrite length_map, length_combine, fold_round_length. lia.
Qed.

Lemma blocks_length (n : nat) : forall h bs, length (SHA512.blocks n h bs) = length h.
Proof.
  induction n as [|n IH]; intros h bs; [reflexivity|].
  cbn [SHA512.blocks]. now rewrite IH, compress_length.
Qed.

Lemma be_bytes_length (n : nat) : forall x, length (SHA512.be_bytes n x) = n.
Proof.
  induction n as [|n IH]; intros x; [reflexivity|].
  cbn [SHA512.be_bytes]. rewrite length_app, IH. cbn. lia.
Qed.

Lemma be_bytes_range (n : nat) :
  forall x, Forall (fun b => (0 <= b < 256)%Z) (SHA512.be_bytes n x).
Proof.
  induction n as [|n IH]; intros x; [constructor|].
  cbn [SHA512.be_bytes]. apply Forall_app. split; [apply IH|].
  constructor; [|constructor].
  change 255%Z with (Z.ones 8). rewrite Z.land_ones by lia.
  apply Z.mod_pos_bound. lia.
Qed.

Lemma flat_map_be_bytes_length (ws : list Z) :
  length (flat_map (SHA512.be_bytes 8) ws) = 8 * length ws.
Proof.
  induction ws as [|w ws IH]; [reflexivity|].
  cbn [flat_map]. rewrite length_app, be_bytes_length, IH. cbn [length]. lia.
Qed.

Lemma flat_map_be_bytes_range (ws : list Z) :
  Forall (fun b => (0 <= b < 256)%Z) (flat_map (SHA512.be_bytes 8) ws).
Proof.
  induction ws as [|w ws IH]; [constructor|].
  cbn [flat_map]. apply Forall_app. split; [apply be_bytes_range|exact IH].
Qed.

(** The digest is 64 bytes. *)
Lemma digest_length (msg : list Z) : length (SHA512.digest msg) = 64.
Proof.
  unfold SHA512.digest. cbv zeta. rewrite flat_map_be_bytes_length, blocks_length.
  reflexivity.
Qed.

Lemma digest_range (msg : list Z) :
  Forall (fun b => (0 <= b < 256)%Z) (SHA512.digest msg).
Proof. apply flat_map_be_bytes_range. Qed.

Lemma hex_digit_is_hex (d : Z) : (0 <= d < 16)%Z -> is_hex (hex_digit d) = true.
Proof.
  intros Hd.
  assert (d = 0 \/ d = 1 \/ d = 2 \/ d = 3 \/ d = 4 \/ d = 5 \/ d = 6 \/ d = 7 \/
          d = 8 \/ d = 9 \/ d = 10 \/ d = 11 \/ d = 12 \/ d = 13 \/ d = 14 \/ d = 15)%Z
    as Hcases by lia.
  repeat (destruct Hcases as [->|Hcases]; [reflexivity|]). subst d. reflexivity.
Qed.

Lemma hex_of_bytes_length (bs : list Z) :
  String.length (hex_of_bytes bs) = 2 * length bs.
Proof.
  induction bs as [|b bs IH]; [reflexivity|].
  cbn [hex_of_bytes String.length length]. rewrite IH. lia.
Qed.

Lemma hex_of_bytes_hex (bs : list Z) :
  Forall (fun b => (0 <= b < 256)%Z) bs -> all_hex (hex_of_bytes bs) = true.
Proof.
  induction 1 as [|b bs Hb _ IH]; [reflexivity|].
  unfold all_hex in *. cbn [hex_of_bytes list_ascii_of_string forallb].
  rewrite IH, !hex_digit_is_hex; [reflexivity| |].
  - change 15%Z with (Z.ones 4). rewrite Z.land_ones by lia. apply Z.mod_pos_bound. lia.
  - rewrite Z.shiftr_div_pow2 by lia. change (2 ^ 4)%Z with 16%Z.
    split; [apply Z.div_pos; lia|apply Z.div_lt_upper_bound; lia].
Qed.

Lemma sha512_hex_length (key : string) : String.length (sha512_hex key) = 128.
Proof. unfold sha512_hex. now rewrite hex_of_bytes_length, digest_length. Qed.

Lemma sha512_hex_hex (key : string) : all_hex (sha512_hex key) = true.
Proof. apply hex_of_bytes_hex, digest_range. Qed.

Lemma substring_length (n : nat) :
  forall s, String.length (substring 0 n s) = Nat.min n (String.length s).
Proof.
  induction n as [|n IH]; intros [|c s]; cbn [substring String.length]; try reflexivity.
  now rewrite IH.
Qed.

Lemma substring_all_hex (n : nat) :
  forall s, all_hex s = true -> all_hex (substring 0 n s) = true.
Proof.
  unfold all_hex.
  induction n as [|n IH]; intros [|c s]; cbn [substring list_ascii_of_string forallb];
    try reflexivity.
  intros [Hc Hs]%andb_true_iff. rewrite Hc. now apply IH.
Qed.

Lemma all_hex_app (s t : string) :
  all_hex (s +:+ t) = all_hex s && all_hex t.
Proof.
  unfold all_hex. induction s as [|c s IH]; [reflexivity|].
  rewrite append_cons. cbn [list_ascii_of_string forallb]. now rewrite IH, andb_assoc.
Qed.

(** X1. [getAddress key n] is the first [n] characters of a digest of 128
    characters: it has [min n 128] characters, all lower-case hexadecimal
    digits, whatever the key. *)
Theorem getAddress_shape (key : string) (n : nat) :
  String.length (getAddress key n) = Nat.min n 128 /\
  all_hex (getAddress key n) = true.
Proof.
  unfold getAddress. split.
  - now rewrite substring_length, sha512_hex_length.
  - apply substring_all_hex, sha512_hex_hex.
Qed.

Lemma prefix_app (p s : string) : String.prefix p (p +:+ s) = true.
Proof.
  induction p as [|c p IH]; [now destruct s|].
  rewrite append_cons. cbn [String.prefix].
  destruct (ascii_dec c c); [exact IH|congruence].
Qed.

(** X2. Every address that one of the six address functions returns has
    70 characters, all lower-case hexadecimal digits, and begins with
    [PREFIX]. *)
Theorem address_shape (i : nat) (f : string -> string) (x : string) :
  address_functions !! i = Some f ->
  String.length (f x) = 70 /\
  all_hex (f x) = true /\
  String.prefix PREFIX (f x) = true.
Proof.
  intros Hf.
  destruct (getAddress_shape x 62) as [Hlen Hhex].
  assert (forall kind, String.length kind = 2 -> all_hex kind = true ->
            String.length (PREFIX +:+ kind +:+ getAddress x 62) = 70 /\
            all_hex (PREFIX +:+ kind +:+ getAddress x 62) = true /\
            String.prefix PREFIX (PREFIX +:+ kind +:+ getAddress x 62) = true) as Hkind.
  { intros kind Hk Hkh. rewrite !length_append, !all_hex_app, Hlen, Hk, Hhex, Hkh.
    split; [reflexivity|]. split; [reflexivity|apply prefix_app]. }
  destruct i as [|[|[|[|[|[|i]]]]]]; try discriminate Hf;
    injection Hf as <-; now apply Hkind.
Qed.

(** X3. Two different address functions never return the same address,
    whatever their arguments: the kinds of entries do not overlap. *)
Theorem address_kinds_disjoint (i j : nat) (f g : string -> string) (x y : string) :
  address_functions !! i = Some f ->
  address_functions !! j = Some g ->
  i <> j ->
  f x <> g y.
Proof.
  intros Hf Hg Hij.
  destruct i as [|[|[|[|[|[|i]]]]]]; try discriminate Hf;
    destruct j as [|[|[|[|[|[|j]]]]]]; try discriminate Hg;
    try congruence;
    injection Hf as <-; injection Hg as <-; kinds_differ.
Qed.

Lemma address_kinds_disjoint_witness :
  getTransferAcknAddress "widget" <> getTransferApproveAddress "widget".
Proof.
  apply (address_kinds_disjoint 2 3 getTransferAcknAddress getTransferApproveAddress);
    [reflexivity|reflexivity|lia].
Defined.

Lemma address_shape_witness :
  String.length (getRegulatorAddress "regulator1") = 70 /\
  all_hex (getRegulatorAddress "regulator1") = true /\
  String.prefix PREFIX (getRegulatorAddress "regulator1") = true.
Proof.
  apply (address_shape 4 getRegulatorAddress "regulator1"). reflexivity.
Defined.

(** ** What a transaction does *)

Lemma no_data_has_data (entry : option Buffer) : no_data entry = negb (has_data entry).
Proof. destruct entry as [[|b entry]|]; reflexivity. Qed.

Lemma decode_has_data (entry : Buffer) (v : json) :
  decode (Some entry) = inr v -> has_data (Some entry) = true.
Proof. destruct entry; [discriminate|reflexivity]. Qed.

(** The owner check passes only on an object whose owner is the signer. *)
Lemma owner_check_passes (record : json) (recordOwner : option json) (signer : string) :
  owner_of record = inr recordOwner ->
  strict_ne signer recordOwner = false ->
  exists fields, record = JObject fields /\
                 GetField fields "owner" = Some (JString signer).
Proof.
  intros Howner Hne.
  destruct recordOwner as [[| | |s| |]|]; try discriminate Hne.
  cbn [strict_ne] in Hne. apply negb_false_iff, String.eqb_eq in Hne. subst s.
  destruct record; try discriminate Howner.
  injection Howner as Hget. eauto.
Qed.

Lemma owner_check_cases (entry : option Buffer) (signer message : string)
    (k : Promise (gset string)) (w : View) (out : View * (error + gset string)) :
  match decode entry with
  | inl e => (w, inl e)
  | inr record =>
      match owner_of record with
      | inl e => (w, inl e)
      | inr recordOwner =>
          if strict_ne signer recordOwner
          then (w, inl (InvalidTransaction message))
          else k w
      end
  end = out ->
  (exists e, out = (w, inl e)) \/
  (exists fields, decode entry = inr (JObject fields) /\
                  GetField fields "owner" = Some (JString signer) /\
                  out = k w).
Proof.
  destruct (decode entry) as [e|record] eqn:Hdecode; [intros <-; eauto|].
  destruct (owner_of record) as [e|recordOwner] eqn:Howner; [intros <-; eauto|].
  destruct (strict_ne signer recordOwner) eqn:Hne; [intros <-; eauto|].
  destruct (owner_check_passes _ _ _ Howner Hne) as (fields & -> & Hget).
  intros <-. right. eauto.
Qed.

Lemma decode_Some_entry (entry : option Buffer) (v : json) :
  decode entry = inr v -> exists b, entry = Some b.
Proof. destruct entry; [eauto|discriminate]. Qed.

Lemma state_set_run (entries st : gmap string Buffer) :
  state_set entries (mkView st ∅) = (mkView (entries ∪ st) entries, inr (dom entries)).
Proof. unfold state_set. cbn [ledger write_set]. now rewrite (right_id_L ∅ (∪)). Qed.

Lemma apply_outcome (st : gmap string Buffer) (txn : Transaction) :
  outcome st txn (run (apply txn) st).
Proof.
  unfold run, apply. cbv zeta.
  repeat match goal with |- context [if String.eqb ?a ?b then _ else _] =>
    destruct (String.eqb a b) end.
  - rewrite createAsset_eq. cbn [ledger].
    destruct (has_data _) eqn:Hdata; [constructor|].
    rewrite state_set_run. constructor; [now constructor|]. left.
  - rewrite transferAsset_eq. cbv zeta. cbn [ledger].
    destruct (no_data _) eqn:Hdata; [constructor|].
    match goal with |- outcome _ _ ?x => destruct (owner_check_cases _ _ _ _ _ x eq_refl)
      as [[e He]|(fields & Hdecode & Hget & Hout)] end.
    + rewrite He. constructor.
    + rewrite Hout, state_set_run.
      destruct (decode_Some_entry _ _ Hdecode) as [b Hb]. rewrite Hb in Hdecode.
      constructor; [now apply (effect_transfer _ _ b fields)|]. right. left.
  - rewrite acknowledgeTransfer_eq. cbv zeta. cbn [ledger].
    destruct (no_data _) eqn:Hdata; [constructor|].
    match goal with |- outcome _ _ ?x => destruct (owner_check_cases _ _ _ _ _ x eq_refl)
      as [[e He]|(fields & Hdecode & Hget & Hout)] end.
    + rewrite He. constructor.
    + rewrite Hout, state_set_run.
      destruct (decode_Some_entry _ _ Hdecode) as [b Hb]. rewrite Hb in Hdecode.
      constructor; [now apply (effect_acknowledge _ _ b fields)|]. right. right. left.
  - rewrite acceptTransfer_eq. constructor.
  - rewrite rejectTransfer_eq. cbv zeta. cbn [ledger].
    match goal with |- outcome _ _ ?x => destruct (owner_check_cases _ _ _ _ _ x eq_refl)
      as [[e He]|(fields & Hdecode & Hget & Hout)] end.
    + rewrite He. constructor.
    + rewrite Hout, state_set_run.
      destruct (decode_Some_entry _ _ Hdecode) as [b Hb]. rewrite Hb in Hdecode.
      constructor; [now apply (effect_reject _ _ b fields)|]. do 3 right. left.
  - unfold then_, resolve, throw. constructor.
Qed.

Lemma commit_effect (st : gmap string Buffer) (txn : Transaction) :
  effect st txn (commit st txn).
Proof.
  unfold commit. destruct (apply_outcome st txn) as [e|writes Heff _].
  - constructor.
  - exact Heff.
Qed.

(** ** The rules when they resolve *)

Lemma createAsset_run (st : gmap string Buffer) (name signer : string) :
  run (createAsset name signer) st =
  if has_data (st !! getAssetAddress name)
  then (mkView st ∅, inl (InvalidTransaction "Asset name in use"))
  else let writes :=
         <[getAssetAddress name := encode [("name", name); ("owner", signer)]]> ∅ in
       (mkView (writes ∪ st) writes, inr (dom writes)).
Proof.
  unfold run. rewrite createAsset_eq. cbn [ledger].
  destruct (has_data _); [reflexivity|]. apply state_set_run.
Qed.

Lemma strict_ne_same (signer : string) : strict_ne signer (Some (JString signer)) = false.
Proof. cbn [strict_ne]. now rewrite String.eqb_refl. Qed.

Lemma strict_ne_other (signer : string) (value : option json) :
  value <> Some (JString signer) -> strict_ne signer value = true.
Proof.
  destruct value as [[| | |s| |]|]; try reflexivity.
  intros Hne. cbn [strict_ne]. destruct (String.eqb_spec signer s) as [->|_];
    [congruence|reflexivity].
Qed.

Lemma owner_check_run (entry : Buffer) (fields : list (string * json))
    (signer message : string) (k : Promise (gset string)) (w : View) :
  decode (Some entry) = inr (JObject fields) ->
  match decode (Some entry) with
  | inl e => (w, inl e)
  | inr record =>
      match owner_of record with
      | inl e => (w, inl e)
      | inr recordOwner =>
          if strict_ne signer recordOwner
          then (w, inl (InvalidTransaction message))
          else k w
      end
  end =
  if strict_ne signer (GetField fields "owner")
  then (w, inl (InvalidTransaction message)) else k w.
Proof. intros ->. reflexivity. Qed.

Lemma transferAsset_run (st : gmap string Buffer) (asset newOwner signer : string)
    (entry : Buffer) (fields : list (string * json)) :
  st !! getAssetAddress asset = Some entry ->
  decode (Some entry) = inr (JObject fields) ->
  run (transferAsset asset newOwner signer) st =
  if strict_ne signer (GetField fields "owner")
  then (mkView st ∅, inl (InvalidTransaction "Only an Asset's owner may transfer it"))
  else let writes :=
         <[getTransferAcknAddress asset :=
             encode [("asset", asset); ("owner", newOwner)]]> ∅ in
       (mkView (writes ∪ st) writes, inr (dom writes)).
Proof.
  intros Hentry Hdecode. unfold run. rewrite transferAsset_eq. cbv zeta. cbn [ledger].
  rewrite Hentry, no_data_has_data, (decode_has_data _ _ Hdecode). cbn [negb].
  rewrite (owner_check_run _ _ _ _ _ _ Hdecode).
  destruct (strict_ne _ _); [reflexivity|apply state_set_run].
Qed.

Lemma acknowledgeTransfer_run (st : gmap string Buffer) (asset signer : string)
    (entry : Buffer) (fields : list (string * json)) :
  st !! getTransferAcknAddress asset = Some entry ->
  decode (Some entry) = inr (JObject fields) ->
  run (acknowledgeTransfer asset signer) st =
  if strict_ne signer (GetField fields "owner")
  then (mkView st ∅,
        inl (InvalidTransaction "Transfers can only be acknowledged by the new buyer"))
  else let writes :=
         <[getTransferApproveAddress asset := encode [("name", asset); ("owner", signer)]]>
           (<[getTransferAcknAddress asset := Buffer0]> ∅) in
       (mkView (writes ∪ st) writes, inr (dom writes)).
Proof.
  intros Hentry Hdecode. unfold run. rewrite acknowledgeTransfer_eq. cbv zeta. cbn [ledger].
  rewrite Hentry, no_data_has_data, (decode_has_data _ _ Hdecode). cbn [negb].
  rewrite (owner_check_run _ _ _ _ _ _ Hdecode).
  destruct (strict_ne _ _); [reflexivity|apply state_set_run].
Qed.

Lemma rejectTransfer_run (st : gmap string Buffer) (asset signer : string)
    (entry : Buffer) (fields : list (string * json)) :
  st !! getTransferAddress asset = Some entry ->
  decode (Some entry) = inr (JObject fields) ->
  run (rejectTransfer asset signer) st =
  if strict_ne signer (GetField fields "owner")
  then (mkView st ∅,
        inl (InvalidTransaction
               "Transfers can only be rejected by the potential new owner"))
  else let writes := <[getTransferAddress asset := Buffer0]> ∅ in
       (mkView (writes ∪ st) writes, inr (dom writes)).
Proof.
  intros Hentry Hdecode. unfold run. rewrite rejectTransfer_eq. cbv zeta. cbn [ledger].
  rewrite Hentry, (owner_check_run _ _ _ _ _ _ Hdecode).
  destruct (strict_ne _ _); [reflexivity|apply state_set_run].
Qed.

Lemma lookup_written_same (a : string) (v : Buffer) (m st : gmap string Buffer) :
  (<[a := v]> m ∪ st) !! a = Some v.
Proof. apply lookup_union_Some_l, lookup_insert_eq. Qed.

(** X4. When the asset address holds no data (no entry, or an empty one),
    [createAsset] resolves and writes one entry, the encoding of
    {name, owner: signer} at the asset address; every other address is
    as before. *)
Theorem createAsset_fresh (st : gmap string Buffer) (name signer : string) :
  has_data (st !! getAssetAddress name) = false ->
  let writes := <[getAssetAddress name := encode [("name", name); ("owner", signer)]]> ∅ in
  run (createAsset name signer) st = (mkView (writes ∪ st) writes, inr (dom writes)) /\
  size writes = 1 /\
  (forall a, a <> getAssetAddress name -> (writes ∪ st) !! a = st !! a) /\
  decode ((writes ∪ st) !! getAssetAddress name)
    = inr (json_of_record [("name", name); ("owner", signer)]).
Proof.
  intros Hfree. cbv zeta. split; [|split; [|split]].
  - rewrite createAsset_run, Hfree. reflexivity.
  - rewrite insert_empty. apply map_size_singleton.
  - intros a Ha. apply lookup_written_1. congruence.
  - rewrite lookup_written_same. apply decode_asset_record.
Qed.

Lemma createAsset_fresh_witness :
  let writes : gmap string Buffer :=
    <[getAssetAddress "widget" := encode [("name", "widget"); ("owner", "alice")]]> ∅ in
  run (createAsset "widget" "alice") ∅ = (mkView (writes ∪ ∅) writes, inr (dom writes)) /\
  size writes = 1 /\
  (forall a, a <> getAssetAddress "widget" -> (writes ∪ ∅) !! a = (∅ : gmap string Buffer) !! a) /\
  decode ((writes ∪ ∅) !! getAssetAddress "widget")
    = inr (json_of_record [("name", "widget"); ("owner", "alice")]).
Proof. apply (createAsset_fresh ∅ "widget" "alice"). reflexivity. Defined.

(** X5. When the asset entry decodes to a record whose owner is the
    signer, [transferAsset] resolves and writes one entry, the encoding of
    {asset, owner: newOwner} at the acknowledgment address; the asset
    entry and every other address are as before. *)
Theorem transferAsset_by_owner
    (st : gmap string Buffer) (asset newOwner signer : string)
    (entry : Buffer) (fields : list (string * json)) :
  st !! getAssetAddress asset = Some entry ->
  decode (Some entry) = inr (JObject fields) ->
  GetField fields "owner" = Some (JString signer) ->
  let writes :=
    <[getTransferAcknAddress asset := encode [("asset", asset); ("owner", newOwner)]]> ∅ in
  run (transferAsset asset newOwner signer) st
    = (mkView (writes ∪ st) writes, inr (dom writes)) /\
  size writes = 1 /\
  (forall a, a <> getTransferAcknAddress asset -> (writes ∪ st) !! a = st !! a) /\
  (writes ∪ st) !! getAssetAddress asset = Some entry /\
  decode ((writes ∪ st) !! getTransferAcknAddress asset)
    = inr (json_of_record [("asset", asset); ("owner", newOwner)]).
Proof.
  intros Hentry Hdecode Howner. cbv zeta. split; [|split; [|split; [|split]]].
  - rewrite (transferAsset_run _ _ _ _ _ _ Hentry Hdecode).
    now rewrite Howner, strict_ne_same.
  - rewrite insert_empty. apply map_size_singleton.
  - intros a Ha. apply lookup_written_1. congruence.
  - rewrite lookup_written_1 by kinds_differ. exact Hentry.
  - rewrite lookup_written_same. apply decode_offer_record.
Qed.

Lemma transferAsset_by_owner_witness :
  let writes : gmap string Buffer :=
    <[getTransferAcknAddress "widget" := encode [("asset", "widget"); ("owner", "bob")]]> ∅ in
  run (transferAsset "widget" "bob" "alice") widget_created
    = (mkView (writes ∪ widget_created) writes, inr (dom writes)) /\
  size writes = 1 /\
  (forall a, a <> getTransferAcknAddress "widget" ->
             (writes ∪ widget_created) !! a = widget_created !! a) /\
  (writes ∪ widget_created) !! getAssetAddress "widget"
    = Some (encode [("name", "widget"); ("owner", "alice")]) /\
  decode ((writes ∪ widget_created) !! getTransferAcknAddress "widget")
    = inr (json_of_record [("asset", "widget"); ("owner", "bob")]).
Proof.
  apply (transferAsset_by_owner widget_created "widget" "bob" "alice"
           (encode [("name", "widget"); ("owner", "alice")])
           [("name", JString "widget"); ("owner", JString "alice")]).
  - vm_compute. reflexivity.
  - vm_compute. reflexivity.
  - reflexivity.
Defined.

(** X6. [acknowledgeTransfer] rejects with "Asset is not being
    transfered" when the acknowledgment address holds no data, and with
    "Transfers can only be acknowledged by the new buyer" when the entry
    there, well-formed UTF-8, decodes to a record with another owner
    than the signer (or none); nothing is written. *)
Theorem acknowledgeTransfer_rejections
    (st : gmap string Buffer) (asset signer : string) :
  (no_data (st !! getTransferAcknAddress asset) = true ->
   run (acknowledgeTransfer asset signer) st
     = (mkView st ∅, inl (InvalidTransaction "Asset is not being transfered"))) /\
  (forall (entry : Buffer) (fields : list (string * json)),
     st !! getTransferAcknAddress asset = Some entry ->
     isUtf8 entry = true ->
     decode (Some entry) = inr (JObject fields) ->
     GetField fields "owner" <> Some (JString signer) ->
     run (acknowledgeTransfer asset signer) st
       = (mkView st ∅,
          inl (InvalidTransaction "Transfers can only be acknowledged by the new buyer"))).
Proof.
  split.
  - intros Habsent. unfold run. rewrite acknowledgeTransfer_eq. cbv zeta. cbn [ledger].
    now rewrite Habsent.
  - intros entry fields Hentry _ Hdecode Howner.
    rewrite (acknowledgeTransfer_run _ _ _ _ _ Hentry Hdecode).
    now rewrite strict_ne_other.
Qed.

Lemma acknowledgeTransfer_rejections_witness :
  run (acknowledgeTransfer "widget" "bob") widget_created
    = (mkView widget_created ∅, inl (InvalidTransaction "Asset is not being transfered")) /\
  run (acknowledgeTransfer "widget" "mallory") widget_offered
    = (mkView widget_offered ∅,
       inl (InvalidTransaction "Transfers can only be acknowledged by the new buyer")).
Proof.
  split.
  - apply (acknowledgeTransfer_rejections widget_created "widget" "bob").
    vm_compute. reflexivity.
  - apply (proj2 (acknowledgeTransfer_rejections widget_offered "widget" "mallory")
             (encode [("asset", "widget"); ("owner", "bob")])
             [("asset", JString "widget"); ("owner", JString "bob")]).
    + vm_compute. reflexivity.
    + vm_compute. reflexivity.
    + vm_compute. reflexivity.
    + discriminate.
Defined.

(** X7. When the transfer address holds a record, [rejectTransfer] by the
    owner named in it resolves and writes an empty buffer at that address
    and nothing else; by anyone else, the entry being well-formed UTF-8,
    it rejects with "Transfers can only be rejected by the potential new
    owner" and writes nothing. *)
Theorem rejectTransfer_with_record
    (st : gmap string Buffer) (asset signer recordOwner : string)
    (entry : Buffer) (fields : list (string * json)) :
  st !! getTransferAddress asset = Some entry ->
  decode (Some entry) = inr (JObject fields) ->
  GetField fields "owner" = Some (JString recordOwner) ->
  let writes := <[getTransferAddress asset := Buffer0]> ∅ in
  (signer = recordOwner ->
   run (rejectTransfer asset signer) st = (mkView (writes ∪ st) writes, inr (dom writes)) /\
   (writes ∪ st) !! getTransferAddress asset = Some Buffer0 /\
   (forall a, a <> getTransferAddress asset -> (writes ∪ st) !! a = st !! a)) /\
  (signer <> recordOwner ->
   isUtf8 entry = true ->
   run (rejectTransfer asset signer) st
     = (mkView st ∅,
        inl (InvalidTransaction
               "Transfers can only be rejected by the potential new owner"))).
Proof.
  intros Hentry Hdecode Howner. cbv zeta.
  rewrite (rejectTransfer_run _ _ _ _ _ Hentry Hdecode), Howner. split.
  - intros ->. rewrite strict_ne_same.
    split; [reflexivity|]. split; [apply lookup_written_same|].
    intros a Ha. apply lookup_written_1. congruence.
  - intros Hne _. rewrite strict_ne_other by congruence. reflexivity.
Qed.

Lemma rejectTransfer_with_record_witness :
  let st : gmap string Buffer :=
    <[getTransferAddress "widget" := encode [("name", "widget"); ("owner", "bob")]]> ∅ in
  let writes : gmap string Buffer := <[getTransferAddress "widget" := Buffer0]> ∅ in
  (run (rejectTransfer "widget" "bob") st = (mkView (writes ∪ st) writes, inr (dom writes)) /\
   (writes ∪ st) !! getTransferAddress "widget" = Some Buffer0 /\
   (forall a, a <> getTransferAddress "widget" -> (writes ∪ st) !! a = st !! a)) /\
  run (rejectTransfer "widget" "mallory") st
    = (mkView st ∅,
       inl (InvalidTransaction "Transfers can only be rejected by the potential new owner")).
Proof.
  intros st writes. split.
  - apply (proj1 (rejectTransfer_with_record st "widget" "bob" "bob"
                    (encode [("name", "widget"); ("owner", "bob")])
                    [("name", JString "widget"); ("owner", JString "bob")]
                    (lookup_insert_eq _ _ _) eq_refl eq_refl)).
    reflexivity.
  - apply (proj2 (rejectTransfer_with_record st "widget" "mallory" "bob"
                    (encode [("name", "widget"); ("owner", "bob")])
                    [("name", JString "widget"); ("owner", JString "bob")]
                    (lookup_insert_eq _ _ _) eq_refl eq_refl)).
    + discriminate.
    + vm_compute. reflexivity.
Defined.

(** ** What a transaction leaves alone *)

(** X9. A transaction changes no address other than the asset, transfer,
    acknowledgment and approval addresses of its own asset. *)
Theorem commit_frame (st : gmap string Buffer) (txn : Transaction) (a : string) :
  a ∉ transaction_addresses (asset txn) ->
  commit st txn !! a = st !! a.
Proof.
  unfold transaction_addresses. rewrite !not_elem_of_cons.
  intros (Hasset & Htransfer & Hackn & Happrove & _).
  destruct (commit_effect st txn); [reflexivity|..].
  - apply lookup_written_1. congruence.
  - apply lookup_written_1. congruence.
  - apply lookup_written_2; congruence.
  - apply lookup_written_1. congruence.
Qed.

Lemma commit_frame_witness :
  commit widget_created (mkTransaction "alice" "transfer" "widget" "bob")
    !! getAssetAddress "gadget" = widget_created !! getAssetAddress "gadget".
Proof.
  apply (commit_frame widget_created (mkTransaction "alice" "transfer" "widget" "bob")).
  apply (bool_decide_unpack _). vm_compute. exact I.
Defined.

Lemma written_keys_1 (k a : string) (v : Buffer) :
  a ∈ dom (<[k := v]> (∅ : gmap string Buffer)) -> a = k.
Proof.
  rewrite dom_insert_L, dom_empty_L, elem_of_union, elem_of_singleton.
  intros [->|Ha]; [reflexivity|]. now apply not_elem_of_empty in Ha.
Qed.

Lemma written_keys_2 (k1 k2 a : string) (v1 v2 : Buffer) :
  a ∈ dom (<[k1 := v1]> (<[k2 := v2]> (∅ : gmap string Buffer))) -> a = k1 \/ a = k2.
Proof.
  rewrite !dom_insert_L, dom_empty_L, !elem_of_union, !elem_of_singleton.
  intros [->|[->|Ha]]; [now left|now right|]. now apply not_elem_of_empty in Ha.
Qed.

(** X10. The write-set of a transaction has at most two entries, and each
    address in it is one of the four addresses of the asset of the
    transaction and begins with a namespace the handler registers. *)
Theorem writes_in_namespace (st : gmap string Buffer) (txn : Transaction) :
  size (write_set (run (apply txn) st).1) <= 2 /\
  forall a, a ∈ dom (write_set (run (apply txn) st).1) ->
            a ∈ transaction_addresses (asset txn) /\
            exists ns, ns ∈ namespaces JSONHandler /\ String.prefix ns a = true.
Proof.
  assert (forall k s, String.prefix PREFIX (PREFIX +:+ k +:+ s) = true) as Hprefix.
  { intros k s. apply prefix_app. }
  assert (forall a, a ∈ transaction_addresses (asset txn) ->
            exists ns, ns ∈ namespaces JSONHandler /\ String.prefix ns a = true) as Hns.
  { intros a Ha. exists PREFIX. split; [left|].
    unfold transaction_addresses in Ha. rewrite !elem_of_cons, elem_of_nil in Ha.
    destruct Ha as [->|[->|[->|[->|[]]]]]; apply Hprefix. }
  destruct (apply_outcome st txn) as [e|writes _ Hwrites]; cbn [fst write_set].
  { split; [rewrite map_size_empty; lia|]. intros a Ha. rewrite dom_empty_L in Ha.
    now apply not_elem_of_empty in Ha. }
  rewrite !elem_of_cons, elem_of_nil in Hwrites.
  assert (size writes <= 2 /\
          forall a, a ∈ dom writes -> a ∈ transaction_addresses (asset txn)) as [Hsize Hin].
  { unfold transaction_addresses.
    destruct Hwrites as [Hw|[Hw|[Hw|[Hw|[]]]]]; rewrite Hw.
    - split; [rewrite insert_empty, map_size_singleton; lia|].
      intros a ->%written_keys_1. rewrite !elem_of_cons. tauto.
    - split; [rewrite insert_empty, map_size_singleton; lia|].
      intros a ->%written_keys_1. rewrite !elem_of_cons. tauto.
    - split.
      + rewrite map_size_insert_None, insert_empty, map_size_singleton; [lia|].
        rewrite lookup_insert_ne by kinds_differ. apply lookup_empty.
      + intros a [->| ->]%written_keys_2; rewrite !elem_of_cons; tauto.
    - split; [rewrite insert_empty, map_size_singleton; lia|].
      intros a ->%written_keys_1. rewrite !elem_of_cons. tauto. }
  split; [exact Hsize|].
  intros a Ha. split; [now apply Hin|now apply Hns, Hin].
Qed.

(** X12. Once an asset address holds data, no transaction changes its
    entry: the owner recorded at creation stays. *)
Theorem asset_entry_never_changes
    (st : gmap string Buffer) (txn : Transaction) (name : string) :
  has_data (st !! getAssetAddress name) = true ->
  commit st txn !! getAssetAddress name = st !! getAssetAddress name.
Proof.
  intros Hdata.
  destruct (commit_effect st txn) as [|Hfree| | |]; [reflexivity|..].
  - destruct (decide (getAssetAddress (asset txn) = getAssetAddress name)) as [Heq|Hne].
    + rewrite Heq in Hfree. congruence.
    + now apply lookup_written_1.
  - apply lookup_written_1. kinds_differ.
  - apply lookup_written_2; kinds_differ.
  - apply lookup_written_1. kinds_differ.
Qed.

Lemma asset_entry_never_changes_witness :
  commit widget_created (mkTransaction "bob" "create" "widget" EmptyString)
    !! getAssetAddress "widget" = widget_created !! getAssetAddress "widget".
Proof.
  apply (asset_entry_never_changes widget_created
           (mkTransaction "bob" "create" "widget" EmptyString) "widget").
  vm_compute. reflexivity.
Defined.

(** X13. Once an approval address holds data, it holds data after any
    transaction: no rule clears a pending approval. *)
Theorem approval_never_cleared
    (st : gmap string Buffer) (txn : Transaction) (name : string) :
  has_data (st !! getTransferApproveAddress name) = true ->
  has_data (commit st txn !! getTransferApproveAddress name) = true.
Proof.
  intros Hdata.
  destruct (commit_effect st txn); [exact Hdata|..].
  - rewrite lookup_written_1 by kinds_differ. exact Hdata.
  - rewrite lookup_written_1 by kinds_differ. exact Hdata.
  - destruct (decide (getTransferApproveAddress (asset txn) = getTransferApproveAddress name))
      as [Heq|Hne].
    + rewrite Heq, lookup_written_same. apply encode_has_data.
    + rewrite lookup_written_2; [exact Hdata|exact Hne|kinds_differ].
  - rewrite lookup_written_1 by kinds_differ. exact Hdata.
Qed.

Lemma approval_never_cleared_witness :
  has_data (commit widget_pending (mkTransaction "regulator1" "accept" "widget" EmptyString)
              !! getTransferApproveAddress "widget") = true.
Proof.
  apply (approval_never_cleared widget_pending
           (mkTransaction "regulator1" "accept" "widget" EmptyString) "widget").
  vm_compute. reflexivity.
Defined.

(** X14. No ledger reachable from the empty one has an entry at a
    regulator address or at a participant address: no rule registers
    either. *)
Theorem no_regulator_is_ever_registered (st : gmap string Buffer) (who : string) :
  reachable st ->
  st !! getRegulatorAddress who = None /\ st !! getParticipantAddress who = None.
Proof.
  induction 1 as [|st txn _ [IHr IHp]]; [split; apply lookup_empty|].
  destruct (commit_effect st txn); [now split|..].
  - split; rewrite lookup_written_1 by kinds_differ; assumption.
  - split; rewrite lookup_written_1 by kinds_differ; assumption.
  - split; rewrite lookup_written_2 by kinds_differ; assumption.
  - split; rewrite lookup_written_1 by kinds_differ; assumption.
Qed.

Lemma no_regulator_is_ever_registered_witness :
  widget_acknowledged !! getRegulatorAddress "regulator1" = None /\
  widget_acknowledged !! getParticipantAddress "regulator1" = None.
Proof.
  apply (no_regulator_is_ever_registered widget_acknowledged "regulator1").
  unfold widget_acknowledged, widget_offered, widget_created.
  apply reachable_commit, reachable_commit, reachable_commit, reachable_empty.
Defined.

Lemma writes_in_namespace_witness :
  let txn := mkTransaction "bob" "acknowledge" "widget" EmptyString in
  size (write_set (run (apply txn) widget_offered).1) <= 2 /\
  forall a, a ∈ dom (write_set (run (apply txn) widget_offered).1) ->
            a ∈ transaction_addresses (asset txn) /\
            exists ns, ns ∈ namespaces JSONHandler /\ String.prefix ns a = true.
Proof.
  exact (writes_in_namespace widget_offered
           (mkTransaction "bob" "acknowledge" "widget" EmptyString)).
Defined.

(** ** Reachable ledgers *)

Lemma well_formed_effect (st st' : gmap string Buffer) (txn : Transaction) :
  effect st txn st' -> well_formed st -> well_formed st'.
Proof.
  intros Heff (Hasset & Hackn & Happrove).
  destruct Heff as [|Hfree|entry fields _ _ _|entry fields _ _ _|entry fields _ _ _];
    [now repeat split|..]; (split; [|split]); intros a e.
  - destruct (decide (getAssetAddress (asset txn) = getAssetAddress a)) as [Heq|Hne].
    + rewrite <- Heq, lookup_written_same. intros [= <-]. eauto.
    + rewrite lookup_written_1 by exact Hne. apply Hasset.
  - rewrite lookup_written_1 by kinds_differ. apply Hackn.
  - rewrite lookup_written_1 by kinds_differ. apply Happrove.
  - rewrite lookup_written_1 by kinds_differ. apply Hasset.
  - destruct (decide (getTransferAcknAddress (asset txn) = getTransferAcknAddress a))
      as [Heq|Hne].
    + rewrite <- Heq, lookup_written_same. intros [= <-]. right. eauto.
    + rewrite lookup_written_1 by exact Hne. apply Hackn.
  - rewrite lookup_written_1 by kinds_differ. apply Happrove.
  - rewrite lookup_written_2 by kinds_differ. apply Hasset.
  - destruct (decide (getTransferAcknAddress (asset txn) = getTransferAcknAddress a))
      as [Heq|Hne].
    + rewrite <- Heq. rewrite lookup_union_Some_l with (x := Buffer0).
      * intros [= <-]. now left.
      * rewrite lookup_insert_ne by kinds_differ. apply lookup_insert_eq.
    + rewrite lookup_written_2; [apply Hackn|kinds_differ|exact Hne].
  - destruct (decide (getTransferApproveAddress (asset txn) = getTransferApproveAddress a))
      as [Heq|Hne].
    + rewrite <- Heq, lookup_written_same. intros [= <-]. eauto.
    + rewrite lookup_written_2; [apply Happrove|exact Hne|kinds_differ].
  - rewrite lookup_written_1 by kinds_differ. apply Hasset.
  - rewrite lookup_written_1 by kinds_differ. apply Hackn.
  - rewrite lookup_written_1 by kinds_differ. apply Happrove.
Qed.

Lemma reachable_well_formed (st : gmap string Buffer) : reachable st -> well_formed st.
Proof.
  induction 1 as [|st txn _ IH].
  - repeat split; intros a e; rewrite lookup_empty; discriminate.
  - eapply well_formed_effect; [apply commit_effect|exact IH].
Qed.

(** X15. In a ledger reachable from the empty one, an entry at an asset
    address or at an approval address is the encoding of a {name, owner}
    record: no rule leaves an empty buffer or anything else there. *)
Theorem reachable_entries_are_records (st : gmap string Buffer) (a : string) (entry : Buffer) :
  reachable st ->
  (st !! getAssetAddress a = Some entry ->
   exists name owner, entry = encode [("name", name); ("owner", owner)]) /\
  (st !! getTransferApproveAddress a = Some entry ->
   exists name owner, entry = encode [("name", name); ("owner", owner)]).
Proof.
  intros (Hasset & _ & Happrove)%reachable_well_formed.
  split; [apply Hasset|apply Happrove].
Qed.

(** X16. In a ledger reachable from the empty one, a transaction with
    strings for its action, its asset and its owner that rejects with an
    error other than InvalidTransaction has the action reject: on such
    transactions create, transfer, acknowledge, accept and an unknown
    action only reject with InvalidTransaction. *)
Theorem reachable_untyped_only_reject
    (st : gmap string Buffer) (txn : Transaction) (w : View) (e : error) :
  reachable st ->
  run (apply txn) st = (w, inl e) ->
  untyped e = true ->
  action txn = "reject".
Proof.
  intros (Hasset & Hackn & _)%reachable_well_formed.
  unfold run, apply. cbv zeta.
  destruct (String.eqb (action txn) "create").
  { rewrite createAsset_eq. destruct (has_data _); [now intros [= _ <-]|].
    intros Hrun. now apply state_set_resolves in Hrun. }
  destruct (String.eqb (action txn) "transfer").
  { rewrite transferAsset_eq. cbv zeta. cbn [ledger].
    destruct (st !! getAssetAddress (asset txn)) as [entry|] eqn:Hentry;
      [|now intros [= _ <-]].
    destruct (no_data (Some entry)); [now intros [= _ <-]|].
    destruct (Hasset _ _ Hentry) as (name & owner & ->).
    rewrite decode_asset_record. cbn [owner_of GetField String.eqb Ascii.eqb Bool.eqb].
    destruct (strict_ne _ _); [now intros [= _ <-]|].
    intros Hrun. now apply state_set_resolves in Hrun. }
  destruct (String.eqb (action txn) "acknowledge").
  { rewrite acknowledgeTransfer_eq. cbv zeta. cbn [ledger].
    destruct (st !! getTransferAcknAddress (asset txn)) as [entry|] eqn:Hentry;
      [|now intros [= _ <-]].
    destruct (Hackn _ _ Hentry) as [->|(asset & owner & ->)]; [now intros [= _ <-]|].
    rewrite encode_no_data, decode_offer_record.
    cbn [owner_of GetField String.eqb Ascii.eqb Bool.eqb].
    destruct (strict_ne _ _); [now intros [= _ <-]|].
    intros Hrun. now apply state_set_resolves in Hrun. }
  destruct (String.eqb (action txn) "accept").
  { rewrite acceptTransfer_eq. now intros [= _ <-]. }
  destruct (String.eqb_spec (action txn) "reject") as [Heq|_]; [intros _ _; exact Heq|].
  unfold then_, resolve, throw. now intros [= _ <-].
Qed.

Lemma reachable_untyped_only_reject_witness :
  action (mkTransaction "bob" "reject" "widget" EmptyString) = "reject".
Proof.
  apply (reachable_untyped_only_reject widget_offered
           (mkTransaction "bob" "reject" "widget" EmptyString)
           (mkView widget_offered ∅) TypeError).
  - unfold widget_offered, widget_created.
    apply reachable_commit, reachable_commit, reachable_empty.
  - vm_compute. reflexivity.
  - reflexivity.
Defined.

(** X17. In a ledger reachable from the empty one, a transaction that
    resolves has the action create, transfer or acknowledge. *)
Theorem reachable_resolves_only_three
    (st : gmap string Buffer) (txn : Transaction) (w : View) (r : gset string) :
  reachable st ->
  run (apply txn) st = (w, inr r) ->
  action txn ∈ ["create"; "transfer"; "acknowledge"].
Proof.
  intros Hno%reachable_no_transfer_entry.
  unfold run, apply. cbv zeta. rewrite !elem_of_cons.
  destruct (String.eqb_spec (action txn) "create") as [->|_]; [tauto|].
  destruct (String.eqb_spec (action txn) "transfer") as [->|_]; [tauto|].
  destruct (String.eqb_spec (action txn) "acknowledge") as [->|_]; [tauto|].
  destruct (String.eqb (action txn) "accept").
  { rewrite acceptTransfer_eq. discriminate. }
  destruct (String.eqb (action txn) "reject").
  { rewrite rejectTransfer_no_entry by exact Hno. discriminate. }
  unfold then_, resolve, throw. discriminate.
Qed.

Lemma reachable_resolves_only_three_witness :
  action (mkTransaction "alice" "transfer" "widget" "bob")
    ∈ ["create"; "transfer"; "acknowledge"].
Proof.
  apply (reachable_resolves_only_three widget_created
           (mkTransaction "alice" "transfer" "widget" "bob")
           (run (apply (mkTransaction "alice" "transfer" "widget" "bob")) widget_created).1
           (dom (<[getTransferAcknAddress "widget" :=
                     encode [("asset", "widget"); ("owner", "bob")]]>
                   (∅ : gmap string Buffer)))).
  - unfold widget_created. apply reachable_commit, reachable_empty.
  - vm_compute. reflexivity.
Defined.

Lemma reachable_entries_are_records_witness :
  (exists name owner,
     encode [("name", "widget"); ("owner", "alice")]
       = encode [("name", name); ("owner", owner)]) /\
  (exists name owner,
     encode [("name", "widget"); ("owner", "bob")]
       = encode [("name", name); ("owner", owner)]).
Proof.
  assert (reachable widget_acknowledged) as Hreach.
  { unfold widget_acknowledged, widget_offered, widget_created.
    apply reachable_commit, reachable_commit, reachable_commit, reachable_empty. }
  split.
  - apply (proj1 (reachable_entries_are_records widget_acknowledged "widget"
                    (encode [("name", "widget"); ("owner", "alice")]) Hreach)).
    vm_compute. reflexivity.
  - apply (proj2 (reachable_entries_are_records widget_acknowledged "widget"
                    (encode [("name", "widget"); ("owner", "bob")]) Hreach)).
    vm_compute. reflexivity.
Defined.

(** ** How the rules compose *)

Lemma commit_create (st : gmap string Buffer) (name signer owner : string) :
  has_data (st !! getAssetAddress name) = false ->
  commit st (mkTransaction signer "create" name owner) =
  <[getAssetAddress name := encode [("name", name); ("owner", signer)]]> ∅ ∪ st.
Proof.
  intros Hfree. unfold commit.
  change (apply (mkTransaction signer "create" name owner)) with (createAsset name signer).
  now rewrite createAsset_run, Hfree.
Qed.

Lemma commit_transfer (st : gmap string Buffer) (asset newOwner signer : string)
    (entry : Buffer) (fields : list (string * json)) :
  st !! getAssetAddress asset = Some entry ->
  decode (Some entry) = inr (JObject fields) ->
  GetField fields "owner" = Some (JString signer) ->
  commit st (mkTransaction signer "transfer" asset newOwner) =
  <[getTransferAcknAddress asset := encode [("asset", asset); ("owner", newOwner)]]> ∅ ∪ st.
Proof.
  intros Hentry Hdecode Howner. unfold commit.
  change (apply (mkTransaction signer "transfer" asset newOwner))
    with (transferAsset asset newOwner signer).
  now rewrite (transferAsset_run _ _ _ _ _ _ Hentry Hdecode), Howner, strict_ne_same.
Qed.

Lemma commit_acknowledge (st : gmap string Buffer) (asset signer owner : string)
    (entry : Buffer) (fields : list (string * json)) :
  st !! getTransferAcknAddress asset = Some entry ->
  decode (Some entry) = inr (JObject fields) ->
  GetField fields "owner" = Some (JString signer) ->
  commit st (mkTransaction signer "acknowledge" asset owner) =
  <[getTransferApproveAddress asset := encode [("name", asset); ("owner", signer)]]>
    (<[getTransferAcknAddress asset := Buffer0]> ∅) ∪ st.
Proof.
  intros Hentry Hdecode Howner. unfold commit.
  change (apply (mkTransaction signer "acknowledge" asset owner))
    with (acknowledgeTransfer asset signer).
  now rewrite (acknowledgeTransfer_run _ _ _ _ _ Hentry Hdecode), Howner, strict_ne_same.
Qed.

(** X18. From a ledger where the asset address holds no data, create by
    alice, then transfer to bob by alice, then acknowledge by bob, all
    resolve: the asset entry names alice, the acknowledgment entry is
    empty, the approval entry names bob, and no other address changed. *)
Theorem create_offer_acknowledge
    (st : gmap string Buffer) (asset alice bob o1 o3 : string) :
  has_data (st !! getAssetAddress asset) = false ->
  let st1 := commit st (mkTransaction alice "create" asset o1) in
  let st2 := commit st1 (mkTransaction alice "transfer" asset bob) in
  let st3 := commit st2 (mkTransaction bob "acknowledge" asset o3) in
  st3 !! getAssetAddress asset = Some (encode [("name", asset); ("owner", alice)]) /\
  st3 !! getTransferAcknAddress asset = Some Buffer0 /\
  st3 !! getTransferApproveAddress asset = Some (encode [("name", asset); ("owner", bob)]) /\
  (forall a, a <> getAssetAddress asset -> a <> getTransferAcknAddress asset ->
             a <> getTransferApproveAddress asset -> st3 !! a = st !! a).
Proof.
  intros Hfree. cbv zeta.
  rewrite (commit_create _ _ _ _ Hfree).
  set (st1 := _ ∪ st).
  assert (st1 !! getAssetAddress asset = Some (encode [("name", asset); ("owner", alice)]))
    as Hasset by apply lookup_written_same.
  rewrite (commit_transfer st1 asset bob alice _ _ Hasset (decode_asset_record _ _) eq_refl).
  set (st2 := _ ∪ st1).
  assert (st2 !! getTransferAcknAddress asset
          = Some (encode [("asset", asset); ("owner", bob)]))
    as Hackn by apply lookup_written_same.
  rewrite (commit_acknowledge st2 asset bob o3 _ _ Hackn (decode_offer_record _ _) eq_refl).
  split; [|split; [|split]].
  - rewrite lookup_written_2 by kinds_differ. subst st2.
    rewrite lookup_written_1 by kinds_differ. exact Hasset.
  - apply lookup_union_Some_l. rewrite lookup_insert_ne by kinds_differ.
    apply lookup_insert_eq.
  - apply lookup_written_same.
  - intros a Ha1 Ha2 Ha3. rewrite lookup_written_2 by congruence. subst st2.
    rewrite lookup_written_1 by congruence. subst st1.
    apply lookup_written_1. congruence.
Qed.

Lemma create_offer_acknowledge_witness :
  let st : gmap string Buffer := ∅ in
  let st1 := commit st (mkTransaction "alice" "create" "widget" EmptyString) in
  let st2 := commit st1 (mkTransaction "alice" "transfer" "widget" "bob") in
  let st3 := commit st2 (mkTransaction "bob" "acknowledge" "widget" EmptyString) in
  st3 !! getAssetAddress "widget" = Some (encode [("name", "widget"); ("owner", "alice")]) /\
  st3 !! getTransferAcknAddress "widget" = Some Buffer0 /\
  st3 !! getTransferApproveAddress "widget"
    = Some (encode [("name", "widget"); ("owner", "bob")]) /\
  (forall a, a <> getAssetAddress "widget" -> a <> getTransferAcknAddress "widget" ->
             a <> getTransferApproveAddress "widget" -> st3 !! a = st !! a).
Proof.
  apply (create_offer_acknowledge ∅ "widget" "alice" "bob" EmptyString EmptyString).
  reflexivity.
Defined.

(** X19. After [acknowledgeTransfer] has resolved for an asset, a second
    one for that asset, by anyone, rejects with "Asset is not being
    transfered". *)
Theorem acknowledgeTransfer_once
    (st : gmap string Buffer) (asset signer other : string) (w : View) (r : gset string) :
  run (acknowledgeTransfer asset signer) st = (w, inr r) ->
  run (acknowledgeTransfer asset other) (ledger w)
    = (mkView (ledger w) ∅, inl (InvalidTransaction "Asset is not being transfered")).
Proof.
  unfold run at 1. rewrite acknowledgeTransfer_eq. cbv zeta. cbn [ledger].
  destruct (no_data _); [discriminate|].
  intros Hrun. apply owner_check_cases in Hrun as [[e [=]]|(fields & _ & _ & Hrun)].
  rewrite state_set_run in Hrun. injection Hrun as -> _. cbn [ledger].
  unfold run. rewrite acknowledgeTransfer_eq. cbv zeta. cbn [ledger].
  rewrite lookup_union_Some_l with (x := Buffer0); [reflexivity|].
  rewrite lookup_insert_ne by kinds_differ. apply lookup_insert_eq.
Qed.

Lemma acknowledgeTransfer_once_witness :
  let writes : gmap string Buffer :=
    <[getTransferApproveAddress "widget" := encode [("name", "widget"); ("owner", "bob")]]>
      (<[getTransferAcknAddress "widget" := Buffer0]> ∅) in
  let w := mkView (writes ∪ widget_offered) writes in
  run (acknowledgeTransfer "widget" "mallory") (ledger w)
    = (mkView (ledger w) ∅, inl (InvalidTransaction "Asset is not being transfered")).
Proof.
  intros writes w.
  apply (acknowledgeTransfer_once widget_offered "widget" "bob" "mallory" w (dom writes)).
  rewrite (acknowledgeTransfer_run widget_offered "widget" "bob"
             (encode [("asset", "widget"); ("owner", "bob")])
             [("asset", JString "widget"); ("owner", JString "bob")]).
  - reflexivity.
  - vm_compute. reflexivity.
  - vm_compute. reflexivity.
Defined.

(** X20. A second offer by the owner replaces the first: after transfer
    to bob then transfer to carol, the acknowledgment entry names carol,
    bob's acknowledgment is rejected and carol's resolves. *)
Theorem second_offer_replaces_first
    (st : gmap string Buffer) (asset alice bob carol : string)
    (entry : Buffer) (fields : list (string * json)) :
  st !! getAssetAddress asset = Some entry ->
  decode (Some entry) = inr (JObject fields) ->
  GetField fields "owner" = Some (JString alice) ->
  bob <> carol ->
  let st1 := commit st (mkTransaction alice "transfer" asset bob) in
  let st2 := commit st1 (mkTransaction alice "transfer" asset carol) in
  st2 !! getTransferAcknAddress asset = Some (encode [("asset", asset); ("owner", carol)]) /\
  run (acknowledgeTransfer asset bob) st2
    = (mkView st2 ∅,
       inl (InvalidTransaction "Transfers can only be acknowledged by the new buyer")) /\
  exists w r, run (acknowledgeTransfer asset carol) st2 = (w, inr r).
Proof.
  intros Hentry Hdecode Howner Hne. cbv zeta.
  rewrite (commit_transfer _ _ _ _ _ _ Hentry Hdecode Howner).
  set (st1 := _ ∪ st).
  assert (st1 !! getAssetAddress asset = Some entry) as Hentry1.
  { subst st1. rewrite lookup_written_1 by kinds_differ. exact Hentry. }
  rewrite (commit_transfer _ _ _ _ _ _ Hentry1 Hdecode Howner).
  set (st2 := _ ∪ st1).
  assert (st2 !! getTransferAcknAddress asset
          = Some (encode [("asset", asset); ("owner", carol)]))
    as Hackn by apply lookup_written_same.
  split; [exact Hackn|]. split.
  - rewrite (acknowledgeTransfer_run _ _ _ _ _ Hackn (decode_offer_record _ _)).
    rewrite strict_ne_other; [reflexivity|]. cbn. congruence.
  - rewrite (acknowledgeTransfer_run _ _ _ _ _ Hackn (decode_offer_record _ _)).
    change (GetField _ "owner") with (Some (JString carol)).
    rewrite strict_ne_same. eauto.
Qed.

Lemma second_offer_replaces_first_witness :
  let st1 := commit widget_created (mkTransaction "alice" "transfer" "widget" "bob") in
  let st2 := commit st1 (mkTransaction "alice" "transfer" "widget" "carol") in
  st2 !! getTransferAcknAddress "widget"
    = Some (encode [("asset", "widget"); ("owner", "carol")]) /\
  run (acknowledgeTransfer "widget" "bob") st2
    = (mkView st2 ∅,
       inl (InvalidTransaction "Transfers can only be acknowledged by the new buyer")) /\
  exists w r, run (acknowledgeTransfer "widget" "carol") st2 = (w, inr r).
Proof.
  apply (second_offer_replaces_first widget_created "widget" "alice" "bob" "carol"
           (encode [("name", "widget"); ("owner", "alice")])
           [("name", JString "widget"); ("owner", JString "alice")]).
  - vm_compute. reflexivity.
  - vm_compute. reflexivity.
  - reflexivity.
  - discriminate.
Defined.

(** ** The codec, again *)

Lemma json_of_record_inj (r1 r2 : record) : json_of_record r1 = json_of_record r2 -> r1 = r2.
Proof.
  unfold json_of_record. intros [= Hmap]. revert r2 Hmap.
  induction r1 as [|[k1 v1] r1 IH]; intros [|[k2 v2] r2]; cbn [map]; try discriminate.
  - reflexivity.
  - intros [= -> -> Hrest]. f_equal. now apply IH.
Qed.

(** X21. Two records (no property name twice) with the same encoding
    have the same properties with the same values. *)
Theorem encode_injective (r1 r2 : record) :
  NoDup (Object_keys r1) ->
  NoDup (Object_keys r2) ->
  encode r1 = encode r2 ->
  r1 ≡ₚ r2 /\ forall k, Get r1 k = Get r2 k.
Proof.
  intros Hnd1 Hnd2 Hencode.
  assert (canonical r1 = canonical r2) as Hcanon.
  { apply json_of_record_inj.
    pose proof (decode_encode r1 Hnd1) as H1. pose proof (decode_encode r2 Hnd2) as H2.
    rewrite Hencode in H1. congruence. }
  assert (r1 ≡ₚ r2) as Hperm.
  { rewrite <- (canonical_Permutation r1 Hnd1), Hcanon. now apply canonical_Permutation. }
  split; [exact Hperm|]. intros k. now apply Get_Permutation.
Qed.

Lemma encode_injective_witness :
  [("owner", "alice"); ("name", "widget")] ≡ₚ [("name", "widget"); ("owner", "alice")] /\
  forall k, Get [("owner", "alice"); ("name", "widget")] k
            = Get [("name", "widget"); ("owner", "alice")] k.
Proof.
  apply (encode_injective [("owner", "alice"); ("name", "widget")]
                          [("name", "widget"); ("owner", "alice")]).
  - apply (bool_decide_unpack _). vm_compute. exact I.
  - apply (bool_decide_unpack _). vm_compute. exact I.
  - vm_compute. reflexivity.
Defined.
